(** * Verification of [src/utils.py]: dataset loading, class balancing
      and the streaming confusion-matrix tracker.

    The Python module is embedded shallowly:
    - objects mutated in place ([MetricTracker], the numpy bit generator)
      become an explicit state threaded through a state-and-exception
      monad; a raised exception leaves the state as mutated so far;
    - dicts with string keys are [gmap string _]; lists, tuples, 1-D
      tensors and arrays are [list _] read with [!!];
    - floating-point scalars are kept abstract (the operations the code
      applies to them form the class [Floats]), except where a statement
      is explicitly about exact arithmetic, which uses the rationals [Qc];
    - the file system, [cv2] and [torchvision] are the class [Platform];
    - [np.random] is the legacy generator, its state a stream of draws. *)

From Stdlib Require Import ZArith QArith Qabs Qround Qcanon Field Ascii String.
From stdpp Require Import base option list gmap strings sorting.

Open Scope Z_scope.
Open Scope nat_scope.

(** ** Exceptions and the state-and-exception monad *)

Inductive exn : Set :=
  | IndexError
  | KeyError
  | ValueError
  | ZeroDivisionError
  | OverflowError
  | OSError
  | CvError.

Inductive result (A : Type) : Type :=
  | Ok (a : A)
  | Raise (e : exn).
Arguments Ok {A} a.
Arguments Raise {A} e.

Module Py.

(** A computation over a mutable object of type [S]: it returns a value
    or raises, and in both cases hands back the object as it left it. *)
Definition M (S A : Type) : Type := S → result A * S.

Definition ret {S A} (a : A) : M S A := λ s, (Ok a, s).

Definition bind {S A B} (c : M S A) (k : A → M S B) : M S B :=
  λ s, match c s with
       | (Ok a, s') => k a s'
       | (Raise e, s') => (Raise e, s')
       end.

Definition raise {S A} (e : exn) : M S A := λ s, (Raise e, s).

Definition get {S} : M S S := λ s, (Ok s, s).

Definition modify {S} (f : S → S) : M S unit := λ s, (Ok tt, f s).

(** Lifting of a partial read: [None] raises [e]. *)
Definition lift {S A} (e : exn) (o : option A) : M S A :=
  match o with
  | Some a => ret a
  | None => raise e
  end.

(** [for x in xs: body x] *)
Fixpoint for_each {S A} (xs : list A) (body : A → M S unit) : M S unit :=
  match xs with
  | [] => ret tt
  | x :: xs' => bind (body x) (λ _, for_each xs' body)
  end.

End Py.

Declare Scope py_scope.
Delimit Scope py_scope with py.
Notation "x <- c ; k" := (Py.bind c (λ x, k))
  (at level 20, c at level 100, k at level 200, only parsing) : py_scope.
Notation "' x <- c ; k" := (Py.bind c (λ x, k))
  (at level 20, x pattern, c at level 100, k at level 200, only parsing) : py_scope.
Notation "c ;; k" := (Py.bind c (λ _, k))
  (at level 100, k at level 200, only parsing, right associativity) : py_scope.

(** ** Subscripting *)

(** [l[i]] for a Python [int] [i]: negative subscripts count from the end,
    anything outside [-len, len) is an [IndexError]. *)
Definition py_index {A} (l : list A) (i : Z) : option A :=
  if (0 <=? i)%Z then l !! Z.to_nat i
  else if (- Z.of_nat (length l) <=? i)%Z then l !! Z.to_nat (Z.of_nat (length l) + i)
  else None.

(** Normalisation of a slice bound, as [PySlice_AdjustIndices] does it for a
    step of 1: a negative bound is taken from the end, then clamped. *)
Definition slice_bound (len : nat) (k : Z) : nat :=
  if (k <? 0)%Z then Z.to_nat (Z.max 0 (Z.of_nat len + k))
  else Nat.min (Z.to_nat k) len.

(** [l[:k]] and [l[k:]] *)
Definition slice_to {A} (l : list A) (k : Z) : list A := take (slice_bound (length l) k) l.
Definition slice_from {A} (l : list A) (k : Z) : list A := drop (slice_bound (length l) k) l.

(** ** Scalars

    The arithmetic the module performs on floating-point values is an
    interface: nothing below depends on how the operations round. *)

Class Floats : Type := {
  (** element type of the tensors handed to [MetricTracker.update] *)
  tscalar : Type;
  (** Python's [float] *)
  pyfloat : Type;
  (** [torch.sigmoid] on one element, and the comparison [_ > 0.5] *)
  sigmoid : tscalar → tscalar;
  gt_half : tscalar → bool;
  (** [float(_)] of a one-element tensor *)
  float_of : tscalar → pyfloat;
  (** the [int] [0] the running sums start from, [a + b], and [a / n] for
      a [float] [a] and a non-zero [int] [n] *)
  fzero : pyfloat;
  fadd : pyfloat → pyfloat → pyfloat;
  fdiv : pyfloat → nat → pyfloat;
  (** [a / b] on two [int]s with [b] non-zero *)
  int_truediv : nat → nat → pyfloat;
  (** [a / b] where [b] is a numpy integer scalar: numpy's [true_divide],
      which is total (a zero divisor gives [nan] or [inf] and a
      [RuntimeWarning], not an exception) *)
  np_true_divide : nat → nat → pyfloat;
  (** [n * x] for an [int] [n] *)
  int_fmul : nat → pyfloat → pyfloat;
  (** [int(np.floor(x * n))]; [None] when the product is [nan] or
      infinite, which [int] refuses with an exception *)
  floor_mul : pyfloat → Z → option Z;
  (** whether the product [x * n] is infinite: [int] refuses an
      infinite value with [OverflowError] and [nan] with [ValueError] *)
  mul_is_inf : pyfloat → Z → bool
}.

(** ** MetricTracker *)

Module MetricTracker.
Section Defs.
Context `{Floats}.

Record t : Type := mk {
  batches_cnt : nat;
  total_loss : pyfloat;
  avg_loss : pyfloat;
  confusion_cnt : gmap string nat;
  confusion_arrays : gmap string (list pyfloat);
  confusion_paths : gmap string (list string)
}.

(** A dict literal [{'tp': _, 'tn': _, 'fp': _, 'fn': _}]. *)
Definition four {A : Type} (tp tn fp fn : A) : gmap string A :=
  <["fn" := fn]> (<["fp" := fp]> (<["tn" := tn]> (<["tp" := tp]> ∅))).

(** [__init__] *)
Definition init : t :=
  {| batches_cnt := 0;
     total_loss := fzero;
     avg_loss := fzero;
     confusion_cnt := four 0 0 0 0;
     confusion_arrays := four [] [] [] [];
     confusion_paths := four [] [] [] [] |}.

Definition set_batches_cnt (n : nat) (s : t) : t :=
  mk n (total_loss s) (avg_loss s)
     (confusion_cnt s) (confusion_arrays s) (confusion_paths s).
Definition set_total_loss (x : pyfloat) (s : t) : t :=
  mk (batches_cnt s) x (avg_loss s)
     (confusion_cnt s) (confusion_arrays s) (confusion_paths s).
Definition set_avg_loss (x : pyfloat) (s : t) : t :=
  mk (batches_cnt s) (total_loss s) x
     (confusion_cnt s) (confusion_arrays s) (confusion_paths s).
Definition set_confusion_cnt (m : gmap string nat) (s : t) : t :=
  mk (batches_cnt s) (total_loss s) (avg_loss s)
     m (confusion_arrays s) (confusion_paths s).
Definition set_confusion_arrays (m : gmap string (list pyfloat)) (s : t) : t :=
  mk (batches_cnt s) (total_loss s) (avg_loss s)
     (confusion_cnt s) m (confusion_paths s).
Definition set_confusion_paths (m : gmap string (list string)) (s : t) : t :=
  mk (batches_cnt s) (total_loss s) (avg_loss s)
     (confusion_cnt s) (confusion_arrays s) m.

(** The [if]/[elif] chain choosing [curr_key]; [b] is [preds_binary[i]]
    and [l] is [labels[i]]. *)
Definition curr_key (b : bool) (l : Z) : string :=
  if negb b && (l =? 0)%Z then "tn"
  else if b && (l =? 1)%Z then "tp"
  else if negb b && (l =? 1)%Z then "fn"
  else "fp".

Local Open Scope py_scope.

(** One iteration of the loop over [range(len(labels))]. *)
Definition update_sample (preds_sigmoid : list tscalar) (preds_binary : list bool)
    (labels : list Z) (paths : option (list string)) (i : nat) : Py.M t unit :=
  b <- Py.lift IndexError (preds_binary !! i) ;
  l <- Py.lift IndexError (labels !! i) ;
  let key := curr_key b l in
  s <- Py.get ;
  c <- Py.lift KeyError (confusion_cnt s !! key) ;
  Py.modify (set_confusion_cnt (<[key := c + 1]> (confusion_cnt s))) ;;
  s <- Py.get ;
  arr <- Py.lift KeyError (confusion_arrays s !! key) ;
  p <- Py.lift IndexError (preds_sigmoid !! i) ;
  Py.modify (set_confusion_arrays (<[key := arr ++ [float_of p]]> (confusion_arrays s))) ;;
  match paths with
  | None => Py.ret tt
  | Some ps =>
      s <- Py.get ;
      pl <- Py.lift KeyError (confusion_paths s !! key) ;
      x <- Py.lift IndexError (ps !! i) ;
      Py.modify (set_confusion_paths (<[key := pl ++ [x]]> (confusion_paths s)))
  end.

(** [update(self, loss, preds, labels, paths=None)] *)
Definition update (loss : tscalar) (preds : list tscalar) (labels : list Z)
    (paths : option (list string)) : Py.M t unit :=
  s <- Py.get ;
  Py.modify (set_batches_cnt (batches_cnt s + 1)) ;;
  s <- Py.get ;
  Py.modify (set_total_loss (fadd (total_loss s) (float_of loss))) ;;
  s <- Py.get ;
  Py.modify (set_avg_loss (fdiv (total_loss s) (batches_cnt s))) ;;
  let preds_sigmoid := sigmoid <$> preds in
  let preds_binary := gt_half <$> preds_sigmoid in
  Py.for_each (seq 0 (length labels))
    (update_sample preds_sigmoid preds_binary labels paths).

(** [d[k]] on a dict *)
Definition getitem {A} (d : gmap string A) (k : string) : result A :=
  match d !! k with
  | Some a => Ok a
  | None => Raise KeyError
  end.

Definition rbind {A B} (r : result A) (k : A → result B) : result B :=
  match r with
  | Ok a => k a
  | Raise e => Raise e
  end.

(** [np.sum([cnt for _, cnt in self.confusion_cnt.items()])] *)
Definition confusion_cnt_sum (s : t) : nat :=
  map_fold (λ _ cnt acc, cnt + acc) 0 (confusion_cnt s).

(** [get_accuracy]: the divisor is the numpy scalar returned by
    [np.sum], so the division is numpy's. *)
Definition get_accuracy (s : t) : result pyfloat :=
  let sum := confusion_cnt_sum s in
  rbind (getitem (confusion_cnt s) "tp") (λ tp,
  rbind (getitem (confusion_cnt s) "tn") (λ tn,
  let accuracy := np_true_divide (tp + tn) sum in
  Ok (int_fmul 100 accuracy))).

(** [get_precision]: a division of two Python [int]s. *)
Definition get_precision (s : t) : result pyfloat :=
  rbind (getitem (confusion_cnt s) "tp") (λ tp,
  rbind (getitem (confusion_cnt s) "tp") (λ tp',
  rbind (getitem (confusion_cnt s) "fp") (λ fp,
  if decide (tp' + fp = 0) then Raise ZeroDivisionError
  else Ok (int_truediv tp (tp' + fp))))).

(** [get_recall] *)
Definition get_recall (s : t) : result pyfloat :=
  rbind (getitem (confusion_cnt s) "tp") (λ tp,
  rbind (getitem (confusion_cnt s) "tp") (λ tp',
  rbind (getitem (confusion_cnt s) "fn") (λ fn,
  if decide (tp' + fn = 0) then Raise ZeroDivisionError
  else Ok (int_truediv tp (tp' + fn))))).

(** *** Vocabulary of the statements about [update] *)

Definition keys : list string := ["tp"; "tn"; "fp"; "fn"].

(** All four keys are present in the three dicts. *)
Definition has_keys (s : t) : Prop :=
  ∀ k, k ∈ keys →
    is_Some (confusion_cnt s !! k) ∧ is_Some (confusion_arrays s !! k)
    ∧ is_Some (confusion_paths s !! k).

(** The samples one call of [update] visits: sample [i] is
    [(preds[i], labels[i], paths[i])], the last component absent when
    [paths] is [None]. *)
Definition row : Type := tscalar * Z * option string.

Definition rows (preds : list tscalar) (labels : list Z)
    (paths : option (list string)) : list row :=
  match paths with
  | None => (λ pl, (pl, None)) <$> zip preds labels
  | Some ps => zip_with (λ pl x, (pl, Some x)) (zip preds labels) ps
  end.

Definition row_conf (r : row) : tscalar := sigmoid r.1.1.
Definition row_key (r : row) : string := curr_key (gt_half (row_conf r)) r.1.2.

(** The rows that fall into bucket [k]. *)
Definition bucket (k : string) (rs : list row) : list row :=
  filter (λ r, row_key r = k) rs.

(** What one iteration of the loop does to a tracker holding all four
    keys, as a function of the sample it visits. *)
Definition record (s : t) (r : row) : t :=
  let key := row_key r in
  let s1 := set_confusion_cnt (alter (λ c, c + 1) key (confusion_cnt s)) s in
  let s2 :=
    set_confusion_arrays
      (alter (λ a, a ++ [float_of (row_conf r)]) key (confusion_arrays s1)) s1 in
  match r.2 with
  | None => s2
  | Some x =>
      set_confusion_paths (alter (λ a, a ++ [x]) key (confusion_paths s2)) s2
  end.

(** The arguments of one call, and a tracker driven through a sequence
    of calls; an exception raised by a call is caught by the caller,
    who goes on with the object as the call left it. *)
Record call : Type := Call {
  c_loss : tscalar;
  c_preds : list tscalar;
  c_labels : list Z;
  c_paths : option (list string)
}.

Definition do_call (c : call) : Py.M t unit :=
  update (c_loss c) (c_preds c) (c_labels c) (c_paths c).

Definition run (cs : list call) (s : t) : t :=
  foldl (λ s c, (do_call c s).2) s cs.

(** States reached from a fresh tracker by calls that return; the index
    is the list of calls made so far. *)
Inductive reachable : list call → t → Prop :=
  | reachable_init : reachable [] init
  | reachable_update cs s c s' :
      reachable cs s →
      do_call c s = (Ok tt, s') →
      reachable (cs ++ [c]) s'.

Definition count_of (s : t) (k : string) : nat := default 0 (confusion_cnt s !! k).

(** The samples a sequence of calls visits, in order. *)
Definition visited (cs : list call) : list row :=
  concat ((λ c, rows (c_preds c) (c_labels c) (c_paths c)) <$> cs).

(** [s'] holds everything [s] holds, and possibly more: under every key
    the count has not gone down, and the old array and the old path
    list are prefixes of the new ones. *)
Definition extends (s s' : t) : Prop :=
  ∀ k,
    (∀ c, confusion_cnt s !! k = Some c →
          ∃ n, confusion_cnt s' !! k = Some (c + n))
    ∧ (∀ a, confusion_arrays s !! k = Some a →
            ∃ b, confusion_arrays s' !! k = Some (a ++ b))
    ∧ (∀ pl, confusion_paths s !! k = Some pl →
             ∃ pb, confusion_paths s' !! k = Some (pl ++ pb)).

(** Each count is the length of the array under the same key. *)
Definition counts_match_arrays (s : t) : Prop :=
  ∀ k, k ∈ keys →
    ∃ c a, confusion_cnt s !! k = Some c ∧ confusion_arrays s !! k = Some a
           ∧ c = length a.

End Defs.
End MetricTracker.

(** ** numpy's legacy random generator

    The bit generator is a mutable object; its state is the stream of raw
    draws still to come.  Every sequence of outcomes the real generator
    can produce is the behaviour of some stream, so a statement proved for
    all streams holds for every run. *)

Module Random.

Definition bitgen : Type := nat → nat.

Local Open Scope py_scope.

(** [random_interval(max)]: a draw in [0, max], consuming the stream. *)
Definition random_interval (max : nat) : Py.M bitgen nat :=
  λ g, (Ok (g 0 mod S max), λ n, g (S n)).

(** [x[i], x[j] = x[j], x[i]] *)
Definition swap {A} (x : list A) (i j : nat) : list A :=
  match x !! i, x !! j with
  | Some a, Some b => <[j := a]> (<[i := b]> x)
  | _, _ => x
  end.

(** The loop of [shuffle]:
    [for i in reversed(range(1, n)): j = random_interval(i); swap]. *)
Fixpoint shuffle_from {A} (i : nat) (x : list A) : Py.M bitgen (list A) :=
  match i with
  | 0 => Py.ret x
  | S i' =>
      j <- random_interval i ;
      shuffle_from i' (swap x i j)
  end.

Definition shuffle {A} (x : list A) : Py.M bitgen (list A) :=
  shuffle_from (length x - 1) x.

(** [permutation(n)]: [arange(n)] shuffled. *)
Definition permutation (n : nat) : Py.M bitgen (list nat) :=
  shuffle (seq 0 n).

(** [a[idx]] for an index array [idx] *)
Definition take_at {A} (a : list A) (idx : list nat) : option (list A) :=
  mapM (λ i, a !! i) idx.

(** [choice(a, size, replace=False)] for a 1-D [a] and an [int] [size]. *)
Definition choice {A} (a : list A) (size : Z) : Py.M bitgen (list A) :=
  let pop_size := length a in
  if decide (pop_size = 0 ∧ size ≠ 0%Z) then Py.raise ValueError
  else if decide (Z.of_nat pop_size < size)%Z then Py.raise ValueError
  else if decide (size < 0)%Z then Py.raise ValueError
  else
    perm <- permutation pop_size ;
    let idx := take (Z.to_nat size) perm in
    Py.lift IndexError (take_at a idx).

End Random.

(** ** File system and image decoding

    What the code asks of [os], [cv2] and [torchvision] is an interface. *)

Class Platform : Type := {
  (** [os.path.abspath] *)
  abspath : string → string;
  (** [os.listdir]: the entries of a directory, in the order the system
      reports them; [None] when the call raises [OSError] *)
  listdir : string → option (list string);
  (** decoded images and tensors *)
  bgr : Type;
  rgb : Type;
  tensor : Type;
  (** [cv2.imread]: [None] when the file cannot be read *)
  imread : string → option bgr;
  (** [cv2.cvtColor(_, cv2.COLOR_BGR2RGB)] on a decoded image *)
  bgr2rgb : bgr → rgb;
  (** [transforms.ToTensor()], [transforms.Resize(img_size)] and
      [transforms.Normalize(mean, std)] *)
  to_tensor : rgb → tensor;
  resize : Z → tensor → tensor;
  normalize : list Q → list Q → tensor → tensor
}.

Module Path.

Definition sep : ascii := "/"%char.

Definition startswith_sep (s : string) : bool :=
  match s with
  | String c _ => bool_decide (c = sep)
  | EmptyString => false
  end.

Fixpoint endswith_sep (s : string) : bool :=
  match s with
  | EmptyString => false
  | String c EmptyString => bool_decide (c = sep)
  | String _ s' => endswith_sep s'
  end.

(** [os.path.join(a, b)] of [posixpath] *)
Definition join (a b : string) : string :=
  if startswith_sep b then b
  else if bool_decide (a = EmptyString) || endswith_sep a then a +:+ b
  else a +:+ "/" +:+ b.

(** [posixpath.split] without the final stripping: the part of [p] up
    to and including its last separator, and what follows it. *)
Fixpoint split_last (p : string) : string * string :=
  match p with
  | EmptyString => (EmptyString, EmptyString)
  | String c p' =>
      let '(head, tail) := split_last p' in
      if bool_decide (head = EmptyString) then
        if bool_decide (c = sep) then (String c EmptyString, tail) else (EmptyString, String c tail)
      else (String c head, tail)
  end.

(** [s.rstrip('/')] *)
Fixpoint rstrip_sep (s : string) : string :=
  match s with
  | EmptyString => EmptyString
  | String c s' =>
      let r := rstrip_sep s' in
      if bool_decide (r = EmptyString) && bool_decide (c = sep) then EmptyString else String c r
  end.

(** [os.path.basename] and [os.path.dirname] of [posixpath]; a head made
    of separators only is kept as it is. *)
Definition basename (p : string) : string := (split_last p).2.

Definition dirname (p : string) : string :=
  let head := (split_last p).1 in
  let stripped := rstrip_sep head in
  if bool_decide (stripped = EmptyString) then head else stripped.

(** The name of the directory a file lies in. *)
Definition parent_name (p : string) : string := basename (dirname p).

(** The entries a directory listing reports are not empty and contain no
    separator. *)
Fixpoint has_sep (s : string) : bool :=
  match s with
  | EmptyString => false
  | String c s' => bool_decide (c = sep) || has_sep s'
  end.

Definition is_name (s : string) : Prop := s ≠ EmptyString ∧ has_sep s = false.

End Path.

(** ** ECOLDataset *)

(** The order of [str]: lexicographic on the character codes. *)
Definition str_le (a b : string) : Prop := String.leb a b = true.

Global Instance str_le_dec a b : Decision (str_le a b).
Proof. unfold str_le. apply _. Defined.

Module ECOLDataset.

(** A sample: the path of the file and its label. *)
Abbreviation sample := (string * nat)%type.

Section Defs.
Context `{Platform}.

Record t : Type := mk {
  root_dir : string;
  subdirs : list string;
  dir_label_map : gmap string nat;
  samples : list sample;
  len : nat;
  transform : rgb → tensor
}.

(** [self.subdirs.sort()] *)
Definition sort (l : list string) : list string := merge_sort str_le l.

(** [for i, subdir in enumerate(subdirs): m[subdir] = i] *)
Definition label_map (subdirs : list string) : gmap string nat :=
  foldl (λ m '(i, subdir), <[subdir := i]> m) ∅ (imap pair subdirs).

Local Open Scope py_scope.

(** The inner loop, over the entries of one sub-directory; [acc] is
    [self.samples]. *)
Fixpoint collect_dir {S} (m : gmap string nat) (subdir subdir_path : string)
    (names : list string) (acc : list sample) : Py.M S (list sample) :=
  match names with
  | [] => Py.ret acc
  | img_name :: names' =>
      let img_path := Path.join subdir_path img_name in
      label <- Py.lift KeyError (m !! subdir) ;
      collect_dir m subdir subdir_path names' (acc ++ [(img_path, label)])
  end.

(** The outer loop over [self.subdirs]. *)
Fixpoint collect {S} (root : string) (m : gmap string nat) (ds : list string)
    (acc : list sample) : Py.M S (list sample) :=
  match ds with
  | [] => Py.ret acc
  | subdir :: ds' =>
      let subdir_path := Path.join root subdir in
      names <- Py.lift OSError (listdir subdir_path) ;
      acc' <- collect_dir m subdir subdir_path names acc ;
      collect root m ds' acc'
  end.

(** Where a sample of a dataset comes from: an entry [img_name] of a
    sub-directory [subdir], whose label it carries. *)
Definition collected (root : string) (m : gmap string nat) (ds : list string)
    (smp : sample) : Prop :=
  ∃ subdir names img_name,
    subdir ∈ ds
    ∧ listdir (Path.join root subdir) = Some names
    ∧ img_name ∈ names
    ∧ smp.1 = Path.join (Path.join root subdir) img_name
    ∧ m !! subdir = Some smp.2.

(** The two loops of [__init__] as a comprehension: the entries of the
    sub-directories in order, the first labelled [label], the next
    [label + 1], and so on; [None] when a sub-directory cannot be
    listed. *)
Fixpoint samples_from (root : string) (label : nat) (ds : list string)
    : option (list sample) :=
  match ds with
  | [] => Some []
  | subdir :: ds' =>
      names ← listdir (Path.join root subdir) ;
      more ← samples_from root (S label) ds' ;
      Some (((λ img_name,
                (Path.join (Path.join root subdir) img_name, label)) <$> names)
            ++ more)
  end.

(** [__init__(self, root_dir, transform=None)] *)
Definition init {S} (root_dir : string) (transform : option (rgb → tensor))
    : Py.M S t :=
  let root := abspath root_dir in
  listing <- Py.lift OSError (listdir root) ;
  let subdirs := sort listing in
  let m := label_map subdirs in
  samples <- collect root m subdirs [] ;
  Py.ret {| root_dir := root;
            subdirs := subdirs;
            dir_label_map := m;
            samples := samples;
            len := length samples;
            transform := default to_tensor transform |}.

(** [__len__] *)
Definition __len__ (d : t) : nat := len d.

(** [__getitem__(self, idx)]; [cv2.cvtColor] raises on the [None] that
    [cv2.imread] returns for an unreadable file. *)
Definition __getitem__ {S} (d : t) (idx : Z) : Py.M S (tensor * nat * string) :=
  '(img_path, label) <- Py.lift IndexError (py_index (samples d) idx) ;
  image <- Py.lift CvError (imread img_path) ;
  let image := bgr2rgb image in
  let image := transform d image in
  Py.ret (image, label, img_path).

(** [samples[i][1]] *)
Definition label_at (samples : list sample) (i : nat) : option nat :=
  snd <$> samples !! i.

(** The two comprehensions of [get_balanced_indices]. *)
Definition positive_indices (d : t) : list nat :=
  filter (λ i, label_at (samples d) i = Some 1) (seq 0 (length (samples d))).
Definition negative_indices (d : t) : list nat :=
  filter (λ i, label_at (samples d) i = Some 0) (seq 0 (length (samples d))).

(** [get_balanced_indices(dataset)] *)
Definition get_balanced_indices (d : t) : Py.M Random.bitgen (list nat) :=
  negative_indices_balanced <-
    Random.choice (negative_indices d) (Z.of_nat (length (positive_indices d))) ;
  Py.ret (positive_indices d ++ negative_indices_balanced).

End Defs.
End ECOLDataset.

(** ** Loader construction *)

Module Loader.
Section Defs.
Context `{Floats} `{Platform}.

(** [SubsetRandomSampler(indices)] *)
Record SubsetRandomSampler : Type := { indices : list nat }.

(** [DataLoader(dataset=_, shuffle=False, batch_size=_, sampler=_)] *)
Record DataLoader : Type := {
  dataset : ECOLDataset.t;
  shuffle : bool;
  batch_size : Z;
  sampler : SubsetRandomSampler
}.

Definition MEANS : list Q := [0.485; 0.456; 0.406]%Q.
Definition STDS : list Q := [0.229; 0.224; 0.225]%Q.

(** The default [transforms.Compose] *)
Definition default_transform (img_size : Z) : rgb → tensor :=
  λ img, normalize MEANS STDS (resize img_size (to_tensor img)).

Local Open Scope py_scope.

(** Lines 197-214: the index sequence the split is taken from, and the
    value [dataset_size] has afterwards. *)
Definition select_indices (d : ECOLDataset.t) (shuffle balance : bool)
    (dataset_size : option Z) : Py.M Random.bitgen (list nat * Z) :=
  let dataset_size := default (Z.of_nat (ECOLDataset.__len__ d)) dataset_size in
  '(dataset_indices, dataset_size) <-
    (if balance then
       dataset_indices <- ECOLDataset.get_balanced_indices d ;
       if decide (Z.of_nat (length dataset_indices) < dataset_size)%Z
       then Py.ret (dataset_indices, Z.of_nat (length dataset_indices))
       else Py.ret (dataset_indices, dataset_size)
     else Py.ret (seq 0 (ECOLDataset.__len__ d), dataset_size)) ;
  dataset_indices <-
    (if shuffle then Random.choice dataset_indices dataset_size
     else Py.ret (slice_to dataset_indices dataset_size)) ;
  Py.ret (dataset_indices, dataset_size).

(** Lines 216-238: the split and the two loaders. *)
Definition split_loaders {S} (d : ECOLDataset.t) (batch_size : Z) (test_size : pyfloat)
    (dataset_indices : list nat) (dataset_size : Z) : Py.M S (DataLoader * DataLoader) :=
  val_split_index <-
    Py.lift (if mul_is_inf test_size dataset_size then OverflowError else ValueError)
      (floor_mul test_size dataset_size) ;
  let train_indices := slice_from dataset_indices val_split_index in
  let val_indices := slice_to dataset_indices val_split_index in
  let train_sampler := {| indices := train_indices |} in
  let val_sampler := {| indices := val_indices |} in
  let train_loader :=
    {| dataset := d; shuffle := false; batch_size := batch_size;
       sampler := train_sampler |} in
  let val_loader :=
    {| dataset := d; shuffle := false; batch_size := batch_size;
       sampler := val_sampler |} in
  Py.ret (train_loader, val_loader).

(** [load_dataset_ECOL_labeled]; [num_workers] is accepted and unused. *)
Definition load_dataset_ECOL_labeled (root_dir : string) (img_size : Z)
    (batch_size : Z) (num_workers : Z) (shuffle balance : bool)
    (transform : option (rgb → tensor)) (dataset_size : option Z)
    (test_size : pyfloat) : Py.M Random.bitgen (DataLoader * DataLoader) :=
  let transform := default (default_transform img_size) transform in
  d <- ECOLDataset.init root_dir (Some transform) ;
  '(dataset_indices, dataset_size) <- select_indices d shuffle balance dataset_size ;
  split_loaders d batch_size test_size dataset_indices dataset_size.

(** [check_balancing(dataloader)].  The loop adds the labels at the
    sampler's indices to the local [positives_cnt], which is the state
    here; the value returned is the number the call prints,
    [100 * positives_pctg], before it is formatted. *)
Definition add_label (smps : list ECOLDataset.sample) (ind : nat) : Py.M nat unit :=
  label <- Py.lift IndexError (ECOLDataset.label_at smps ind) ;
  Py.modify (λ positives_cnt, positives_cnt + label).

Definition check_balancing (dataloader : DataLoader) : result pyfloat :=
  let inds := indices (sampler dataloader) in
  match Py.for_each inds (add_label (ECOLDataset.samples (dataset dataloader))) 0 with
  | (Raise e, _) => Raise e
  | (Ok _, positives_cnt) =>
      if decide (length inds = 0) then Raise ZeroDivisionError
      else Ok (int_fmul 100 (int_truediv positives_cnt (length inds)))
  end.

End Defs.
End Loader.

(** ** UnNormalize

    Tensors of size (C, H, W) over exact rational arithmetic. *)

Module UnNormalize.

Abbreviation channel := (list (list Qc)).

Record t : Type := mk { mean : list Qc; std : list Qc }.

(** The in-place elementwise operations of a channel. *)
Definition mul_ (s : Qc) (c : channel) : channel :=
  fmap (M := list) (fmap (M := list) (λ x : Qc, (x * s)%Qc)) c.
Definition add_ (m : Qc) (c : channel) : channel :=
  fmap (M := list) (fmap (M := list) (λ x : Qc, (x + m)%Qc)) c.
Definition sub_ (m : Qc) (c : channel) : channel :=
  fmap (M := list) (fmap (M := list) (λ x : Qc, (x - m)%Qc)) c.
Definition div_ (s : Qc) (c : channel) : channel :=
  fmap (M := list) (fmap (M := list) (λ x : Qc, (x / s)%Qc)) c.

(** [for t, m, s in zip(tensor, mean, std): t.mul_(s).add_(m)]; the
    channels the [zip] does not reach stay as they are. *)
Fixpoint unnormalize (tensor : list channel) (mean std : list Qc) : list channel :=
  match tensor, mean, std with
  | c :: tensor', m :: mean', s :: std' =>
      add_ m (mul_ s c) :: unnormalize tensor' mean' std'
  | _, _, _ => tensor
  end.

(** [__call__(self, tensor)] *)
Definition __call__ (self : t) (tensor : list channel) : list channel :=
  unnormalize tensor (mean self) (std self).

(** The normalisation as the comment in [__call__] quotes it:
    [t.sub_(m).div_(s)] over the same [zip]. *)
Fixpoint normalize (tensor : list channel) (mean std : list Qc) : list channel :=
  match tensor, mean, std with
  | c :: tensor', m :: mean', s :: std' =>
      div_ s (sub_ m c) :: normalize tensor' mean' std'
  | _, _, _ => tensor
  end.

(** The divisors the normalisation of [tensor] uses. *)
Definition std_used (tensor : list channel) (mean std : list Qc) : list Qc :=
  take (Nat.min (length tensor) (length mean)) std.

(** The sizes (H, W) of the channels of a tensor, row by row. *)
Definition shape (tensor : list channel) : list (list nat) :=
  fmap (M := list) (fmap (M := list) length) tensor.

End UnNormalize.

(** ** An instance over the rationals

    Used to run the definitions on concrete inputs.  Arithmetic is exact,
    [nan] and [+inf] are explicit, and the logistic function is replaced
    by [x ↦ 1/2 + x / (2 (1 + |x|))], which like it is increasing and
    takes the value 1/2 at 0. *)

Inductive xfloat : Type :=
  | Finite (q : Q)
  | Infinity
  | NaN.

Module Exact.

Definition x_sigmoid (x : Q) : Q := ((1 # 2) + x / (2 * (1 + Qabs.Qabs x)))%Q.

Definition x_gt_half (x : Q) : bool := negb (Qle_bool x (1 # 2)).

Definition of_nat (n : nat) : Q := inject_Z (Z.of_nat n).

Definition x_fadd (a b : xfloat) : xfloat :=
  match a, b with
  | Finite x, Finite y => Finite (Qred (x + y))
  | NaN, _ | _, NaN => NaN
  | _, _ => Infinity
  end.

Definition x_fdiv (a : xfloat) (n : nat) : xfloat :=
  match a with
  | Finite x => Finite (Qred (x / of_nat n))
  | other => other
  end.

Definition x_int_truediv (a b : nat) : xfloat := Finite (Qred (of_nat a / of_nat b)).

Definition x_np_true_divide (a b : nat) : xfloat :=
  match b, a with
  | 0, 0 => NaN
  | 0, _ => Infinity
  | _, _ => Finite (Qred (of_nat a / of_nat b))
  end.

Definition x_int_fmul (n : nat) (a : xfloat) : xfloat :=
  match a with
  | Finite x => Finite (Qred (of_nat n * x))
  | Infinity => if decide (n = 0) then NaN else Infinity
  | NaN => NaN
  end.

Definition x_floor_mul (a : xfloat) (n : Z) : option Z :=
  match a with
  | Finite x => Some (Qfloor (x * inject_Z n))
  | _ => None
  end.

Definition x_mul_is_inf (a : xfloat) (n : Z) : bool :=
  match a with
  | Infinity => negb (n =? 0)%Z
  | _ => false
  end.

Definition floats : Floats :=
  {| tscalar := Q;
     pyfloat := xfloat;
     sigmoid := x_sigmoid;
     gt_half := x_gt_half;
     float_of := Finite;
     fzero := Finite 0;
     fadd := x_fadd;
     fdiv := x_fdiv;
     int_truediv := x_int_truediv;
     np_true_divide := x_np_true_divide;
     int_fmul := x_int_fmul;
     floor_mul := x_floor_mul;
     mul_is_inf := x_mul_is_inf |}.

End Exact.

(** ** A small file system

    Used to run the definitions on concrete inputs: a root [/data] with
    the sub-directories [pos] and [neg] (listed in that order), three
    files, of which [b.png] cannot be decoded.  Images and tensors are
    represented by the path they were read from. *)

Module Toy.

Definition toy_listdir (p : string) : option (list string) :=
  if decide (p = "/data") then Some ["pos"; "neg"]
  else if decide (p = "/data/neg") then Some ["a.png"; "b.png"]
  else if decide (p = "/data/pos") then Some ["c.png"]
  else None.

Definition toy_imread (p : string) : option string :=
  if decide (p = "/data/neg/b.png") then None else Some p.

Definition platform : Platform :=
  {| abspath := λ p, p;
     listdir := toy_listdir;
     bgr := string;
     rgb := string;
     tensor := string;
     imread := toy_imread;
     bgr2rgb := λ img, img;
     to_tensor := λ img, img;
     resize := λ _ t, t;
     normalize := λ _ _ t, t |}.

(** The dataset [ECOLDataset("/data")] builds on this file system. *)
Definition dataset : @ECOLDataset.t platform :=
  @ECOLDataset.mk platform
    "/data"
    ["neg"; "pos"]
    (<["pos" := 1]> (<["neg" := 0]> ∅))
    [("/data/neg/a.png", 0); ("/data/neg/b.png", 0); ("/data/pos/c.png", 1)]
    3
    (λ img : string, img).

(** A generator whose raw draws are all 0. *)
Definition zeros : Random.bitgen := λ _, 0.

(** A second file system, with more positive than negative samples:
    [neg] is empty and [pos] holds one file. *)
Definition skewed_listdir (p : string) : option (list string) :=
  if decide (p = "/data") then Some ["neg"; "pos"]
  else if decide (p = "/data/neg") then Some []
  else if decide (p = "/data/pos") then Some ["c.png"]
  else None.

Definition skewed : Platform :=
  {| abspath := λ p, p;
     listdir := skewed_listdir;
     bgr := string;
     rgb := string;
     tensor := string;
     imread := λ p, Some p;
     bgr2rgb := λ img, img;
     to_tensor := λ img, img;
     resize := λ _ t, t;
     normalize := λ _ _ t, t |}.

End Toy.

(** * Properties *)

(** ** The monad *)

Module PyFacts.

Lemma bind_ok {S A B} (c : Py.M S A) (k : A → Py.M S B) s a s' :
  c s = (Ok a, s') → Py.bind c k s = k a s'.
Proof. intros E. unfold Py.bind. by rewrite E. Qed.

Lemma bind_raise {S A B} (c : Py.M S A) (k : A → Py.M S B) s e s' :
  c s = (Raise e, s') → Py.bind c k s = (Raise e, s').
Proof. intros E. unfold Py.bind. by rewrite E. Qed.

(** A computation that returns, as a Hoare-style inversion of [bind]. *)
Lemma bind_inv_ok {S A B} (c : Py.M S A) (k : A → Py.M S B) s b s'' :
  Py.bind c k s = (Ok b, s'') →
  ∃ a s', c s = (Ok a, s') ∧ k a s' = (Ok b, s'').
Proof.
  unfold Py.bind. destruct (c s) as [[a|e] s'] eqn:E; [eauto|discriminate].
Qed.

End PyFacts.

(** ** MetricTracker *)

Module TrackerFacts.

(** Case analysis on a key known to be one of the four. *)
Ltac key_cases Hk :=
  unfold MetricTracker.keys in Hk;
  rewrite !elem_of_cons, elem_of_nil in Hk;
  destruct Hk as [->|[->|[->|[->|[]]]]].

Section Facts.
Context `{Floats}.
Import MetricTracker.

Lemma curr_key_in_keys b l : curr_key b l ∈ keys.
Proof.
  unfold curr_key, keys.
  destruct b, (l =? 0)%Z, (l =? 1)%Z; simpl; set_solver.
Qed.

Lemma insert_alter {A} (m : gmap string A) k (f : A → A) a :
  m !! k = Some a → <[k := f a]> m = alter f k m.
Proof.
  intros E. apply map_eq. intros j. rewrite lookup_insert, lookup_alter.
  case_decide; subst; [by rewrite E|done].
Qed.

(** One iteration on in-range subscripts performs [record]. *)
Lemma update_sample_record ps_sig ps_bin labels paths i s p l ox :
  has_keys s →
  ps_sig !! i = Some (sigmoid p) →
  ps_bin !! i = Some (gt_half (sigmoid p)) →
  labels !! i = Some l →
  match paths with
  | None => ox = None
  | Some xs => ∃ x, xs !! i = Some x ∧ ox = Some x
  end →
  update_sample ps_sig ps_bin labels paths i s = (Ok tt, record s (p, l, ox)).
Proof.
  intros Hk Hsig Hbin Hlab Hp.
  destruct (Hk _ (curr_key_in_keys (gt_half (sigmoid p)) l))
    as ([c Hc] & [a Ha] & [pl Hpl]).
  unfold update_sample, record, row_key, row_conf; simpl.
  unfold Py.bind, Py.lift, Py.get, Py.modify, Py.ret; simpl.
  rewrite Hbin, Hlab; simpl. rewrite Hc; simpl. rewrite Ha, Hsig; simpl.
  rewrite (insert_alter _ _ (λ c, c + 1) _ Hc).
  rewrite (insert_alter _ _ (λ a, a ++ [float_of (sigmoid p)]) _ Ha).
  destruct paths as [xs|].
  - destruct Hp as (x & Hx & ->). simpl. rewrite Hpl, Hx; simpl.
    by rewrite (insert_alter _ _ (λ a, a ++ [x]) _ Hpl).
  - by subst ox.
Qed.

Lemma record_cnt s r :
  confusion_cnt (record s r) = alter (λ c, c + 1) (row_key r) (confusion_cnt s).
Proof. unfold record. by destruct (r.2). Qed.

Lemma record_arrays s r :
  confusion_arrays (record s r)
  = alter (λ a, a ++ [float_of (row_conf r)]) (row_key r) (confusion_arrays s).
Proof. unfold record. by destruct (r.2). Qed.

Lemma record_paths s r :
  confusion_paths (record s r)
  = match r.2 with
    | None => confusion_paths s
    | Some x => alter (λ a, a ++ [x]) (row_key r) (confusion_paths s)
    end.
Proof. unfold record. by destruct (r.2). Qed.

Lemma record_has_keys s r : has_keys s → has_keys (record s r).
Proof.
  intros Hk k Hin. destruct (Hk k Hin) as (Hc & Ha & Hp).
  rewrite record_cnt, record_arrays, record_paths.
  repeat split.
  - by apply lookup_alter_is_Some.
  - by apply lookup_alter_is_Some.
  - destruct (r.2); [by apply lookup_alter_is_Some|done].
Qed.

Lemma foldl_record_has_keys rs s : has_keys s → has_keys (foldl record s rs).
Proof.
  revert s. induction rs as [|r rs IH]; intros s Hk; simpl; [done|].
  by apply IH, record_has_keys.
Qed.

(** The three dicts after a run of iterations, key by key. *)
Lemma foldl_record_cnt rs s k :
  confusion_cnt (foldl record s rs) !! k
  = (λ c, c + length (bucket k rs)) <$> confusion_cnt s !! k.
Proof.
  revert s. induction rs as [|r rs IH]; intros s; simpl.
  - destruct (confusion_cnt s !! k); simpl; [f_equal; lia|done].
  - rewrite IH, record_cnt, lookup_alter. unfold bucket. rewrite filter_cons.
    repeat case_decide; subst; try congruence;
      (destruct (confusion_cnt s !! _); simpl; [f_equal; lia|done]).
Qed.

Lemma foldl_record_arrays rs s k :
  confusion_arrays (foldl record s rs) !! k
  = (λ a, a ++ ((float_of ∘ row_conf) <$> bucket k rs)) <$> confusion_arrays s !! k.
Proof.
  revert s. induction rs as [|r rs IH]; intros s; simpl.
  - destruct (confusion_arrays s !! k); simpl; [|done]. by rewrite app_nil_r.
  - rewrite IH, record_arrays, lookup_alter. unfold bucket. rewrite filter_cons.
    repeat case_decide; subst; try congruence;
      destruct (confusion_arrays s !! _); simpl; try done.
    by rewrite <- app_assoc.
Qed.

Lemma foldl_record_paths rs s k :
  confusion_paths (foldl record s rs) !! k
  = (λ a, a ++ omap snd (bucket k rs)) <$> confusion_paths s !! k.
Proof.
  revert s. induction rs as [|r rs IH]; intros s; simpl.
  - destruct (confusion_paths s !! k); simpl; [|done]. by rewrite app_nil_r.
  - rewrite IH, record_paths. unfold bucket. rewrite filter_cons.
    destruct r as [[p l] [x|]]; simpl.
    + rewrite lookup_alter.
      repeat case_decide; subst; try congruence;
        destruct (confusion_paths s !! _); simpl; try done.
      by rewrite <- app_assoc.
    + case_decide; done.
Qed.

(** What the rows of a call are, subscript by subscript. *)
Lemma rows_lookup preds labels paths i p l ox :
  rows preds labels paths !! i = Some (p, l, ox) →
  preds !! i = Some p ∧ labels !! i = Some l
  ∧ match paths with
    | None => ox = None
    | Some xs => ∃ x, xs !! i = Some x ∧ ox = Some x
    end.
Proof.
  unfold rows. destruct paths as [xs|].
  - intros E. apply lookup_zip_with_Some in E as ([p' l'] & x & [= -> -> ->] & E & Ex).
    apply lookup_zip_with_Some in E as (? & ? & [= <- <-] & ? & ?). eauto.
  - rewrite list_lookup_fmap. intros E.
    destruct (zip preds labels !! i) as [[p' l']|] eqn:Ez; simplify_eq/=.
    apply lookup_zip_with_Some in Ez as (? & ? & [= <- <-] & ? & ?). eauto.
Qed.

Lemma rows_length preds labels paths :
  length labels ≤ length preds →
  (∀ xs, paths = Some xs → length labels ≤ length xs) →
  length (rows preds labels paths) = length labels.
Proof.
  intros Hp Hx. unfold rows. destruct paths as [xs|].
  - specialize (Hx xs eq_refl). rewrite !length_zip_with. lia.
  - rewrite length_fmap, length_zip_with. lia.
Qed.

(** The loop over a range of subscripts is the fold of [record] over
    the rows at those subscripts. *)
Lemma for_each_rows preds labels paths rs j s :
  has_keys s →
  (∀ i r, rs !! i = Some r → rows preds labels paths !! (j + i) = Some r) →
  Py.for_each (seq j (length rs))
    (update_sample (sigmoid <$> preds) (gt_half <$> (sigmoid <$> preds)) labels paths) s
  = (Ok tt, foldl record s rs).
Proof.
  revert j s. induction rs as [|[[p l] ox] rs IH]; intros j s Hk Hrs; simpl; [done|].
  pose proof (Hrs 0 _ eq_refl) as E. rewrite Nat.add_0_r in E.
  apply rows_lookup in E as (Ep & El & Ex).
  erewrite PyFacts.bind_ok; last first.
  { apply (update_sample_record _ _ _ _ _ _ p l ox); try done.
    - by rewrite list_lookup_fmap, Ep.
    - by rewrite !list_lookup_fmap, Ep. }
  apply IH; [by apply record_has_keys|].
  intros i r Hi. replace (S j + i) with (j + S i) by lia. by apply (Hrs (S i)).
Qed.

(** A call with enough predictions (and paths, when given) returns, and
    its effect on the dicts is the fold of [record] over its rows. *)
Lemma update_returns s loss preds labels paths :
  has_keys s →
  length labels ≤ length preds →
  (∀ xs, paths = Some xs → length labels ≤ length xs) →
  ∃ s0,
    update loss preds labels paths s
    = (Ok tt, foldl record s0 (rows preds labels paths))
    ∧ batches_cnt s0 = batches_cnt s + 1
    ∧ total_loss s0 = fadd (total_loss s) (float_of loss)
    ∧ avg_loss s0 = fdiv (total_loss s0) (batches_cnt s0)
    ∧ confusion_cnt s0 = confusion_cnt s
    ∧ confusion_arrays s0 = confusion_arrays s
    ∧ confusion_paths s0 = confusion_paths s.
Proof.
  intros Hk Hp Hx.
  exists (set_avg_loss (fdiv (fadd (total_loss s) (float_of loss)) (batches_cnt s + 1))
           (set_total_loss (fadd (total_loss s) (float_of loss))
              (set_batches_cnt (batches_cnt s + 1) s))).
  split; [|by repeat split].
  unfold update. unfold Py.bind at 1 2 3 4 5 6. simpl.
  rewrite <- (rows_length preds labels paths Hp Hx).
  apply for_each_rows; [done|]. by intros i r.
Qed.

Lemma init_has_keys : has_keys init.
Proof.
  intros k Hk. key_cases Hk; by repeat split; eexists.
Qed.



Lemma rows_paths preds labels paths :
  match paths with
  | None => Forall (λ r : row, r.2 = None) (rows preds labels paths)
  | Some _ => Forall (λ r : row, is_Some r.2) (rows preds labels paths)
  end.
Proof.
  destruct paths as [xs|]; apply Forall_forall; intros [[p l] ox] Hr;
    apply list_elem_of_lookup in Hr as [i Hi];
    apply rows_lookup in Hi as (_ & _ & Hx); simpl.
  - destruct Hx as (x & _ & ->). by eexists.
  - done.
Qed.

Lemma Forall_bucket (P : row → Prop) k rs : Forall P rs → Forall P (bucket k rs).
Proof.
  rewrite !Forall_forall. intros HP r Hr.
  apply list_elem_of_filter in Hr as [_ Hr]. by apply HP.
Qed.

Lemma omap_snd_length (rs : list row) :
  Forall (λ r : row, is_Some r.2) rs → length (omap snd rs) = length rs.
Proof.
  induction rs as [|[pl ox] rs IH]; intros Hrs; [done|].
  apply Forall_cons in Hrs as [[x Hx] Hrs]. simpl in Hx. subst ox.
  simpl. f_equal. by apply IH.
Qed.



(** *** The loss fields *)

(** The loop never touches the loss fields, whether it returns or
    raises. *)
Lemma update_sample_loss ps_sig ps_bin labels paths i s :
  let s' := (update_sample ps_sig ps_bin labels paths i s).2 in
  batches_cnt s' = batches_cnt s
  ∧ total_loss s' = total_loss s
  ∧ avg_loss s' = avg_loss s.
Proof.
  unfold update_sample, Py.bind, Py.lift, Py.get, Py.modify, Py.ret, Py.raise.
  simpl. repeat (case_match; simplify_eq/=); done.
Qed.

Lemma for_each_loss ps_sig ps_bin labels paths ixs s :
  let s' := (Py.for_each ixs (update_sample ps_sig ps_bin labels paths) s).2 in
  batches_cnt s' = batches_cnt s
  ∧ total_loss s' = total_loss s
  ∧ avg_loss s' = avg_loss s.
Proof.
  revert s. induction ixs as [|i ixs IH]; intros s; simpl; [done|].
  pose proof (update_sample_loss ps_sig ps_bin labels paths i s) as Hi.
  unfold Py.bind.
  destruct (update_sample ps_sig ps_bin labels paths i s) as [[[]|e] s1];
    simpl in *.
  - destruct (IH s1) as (-> & -> & ->). exact Hi.
  - exact Hi.
Qed.

(** The three assignments ahead of the loop, carried out. *)
Lemma do_call_unfold c s :
  do_call c s
  = Py.for_each (seq 0 (length (c_labels c)))
      (update_sample (sigmoid <$> c_preds c) (gt_half <$> (sigmoid <$> c_preds c))
         (c_labels c) (c_paths c))
      (set_avg_loss
         (fdiv (fadd (total_loss s) (float_of (c_loss c))) (batches_cnt s + 1))
         (set_total_loss (fadd (total_loss s) (float_of (c_loss c)))
            (set_batches_cnt (batches_cnt s + 1) s))).
Proof. reflexivity. Qed.

(** One call, returning or not, counts one batch and adds its loss. *)
Lemma do_call_loss c s :
  let s' := (do_call c s).2 in
  batches_cnt s' = batches_cnt s + 1
  ∧ total_loss s' = fadd (total_loss s) (float_of (c_loss c))
  ∧ avg_loss s' = fdiv (total_loss s') (batches_cnt s').
Proof.
  rewrite do_call_unfold.
  match goal with
  | |- context [Py.for_each ?ixs (update_sample ?a ?b ?l ?p) ?s0] =>
      destruct (for_each_loss a b l p ixs s0) as (E1 & E2 & E3)
  end.
  simpl. by rewrite E1, E2, E3.
Qed.

Lemma run_snoc cs c s : run (cs ++ [c]) s = (do_call c (run cs s)).2.
Proof. unfold run. by rewrite foldl_app. Qed.

(** C4: after [n] calls of [update] on a fresh tracker, whatever the
    calls do otherwise, [batches_cnt] is [n], [total_loss] is the sum
    of the losses taken in call order from [0], and, from the first
    call on, [avg_loss] is that sum divided by [n]. *)
Theorem running_loss_average cs :
  let s := run cs init in
  batches_cnt s = length cs
  ∧ total_loss s = foldl fadd fzero ((float_of ∘ c_loss) <$> cs)
  ∧ avg_loss s = match cs with
                 | [] => fzero
                 | _ :: _ => fdiv (total_loss s) (length cs)
                 end.
Proof.
  induction cs as [|c cs IH] using rev_ind; [done|].
  simpl in *. destruct IH as (IHn & IHt & _).
  rewrite run_snoc.
  destruct (do_call_loss c (run cs init)) as (En & Et & Ea).
  simpl in *. rewrite Ea, Et, En, IHn, IHt.
  rewrite fmap_app, foldl_app, length_app. simpl.
  split; [done|]. split; [done|]. by destruct cs.
Qed.

(** *** Calls that return, and the states they reach *)

Lemma update_sample_ok_inv ps_sig ps_bin labels paths i s s1 :
  update_sample ps_sig ps_bin labels paths i s = (Ok tt, s1) →
  is_Some (ps_bin !! i)
  ∧ match paths with
    | None => True
    | Some xs => is_Some (xs !! i)
    end.
Proof.
  unfold update_sample, Py.bind, Py.lift, Py.get, Py.modify, Py.ret, Py.raise.
  simpl. repeat (case_match; simplify_eq/=); intros; simplify_eq; eauto.
Qed.

Lemma for_each_ok_inv ps_sig ps_bin labels paths ixs s s' :
  Py.for_each ixs (update_sample ps_sig ps_bin labels paths) s = (Ok tt, s') →
  ∀ i, i ∈ ixs →
    is_Some (ps_bin !! i)
    ∧ match paths with
      | None => True
      | Some xs => is_Some (xs !! i)
      end.
Proof.
  revert s. induction ixs as [|j ixs IH]; intros s E i Hi; [by apply elem_of_nil in Hi|].
  simpl in E. apply PyFacts.bind_inv_ok in E as ([] & s1 & E1 & E2).
  apply elem_of_cons in Hi as [->|Hi].
  - by apply update_sample_ok_inv in E1.
  - by apply (IH s1).
Qed.

(** A call returns only if it was given a prediction, and a path when
    paths are given, for every label. *)
Lemma do_call_ok_inv c s s' :
  do_call c s = (Ok tt, s') →
  length (c_labels c) ≤ length (c_preds c)
  ∧ ∀ xs, c_paths c = Some xs → length (c_labels c) ≤ length xs.
Proof.
  rewrite do_call_unfold. intros E.
  pose proof (for_each_ok_inv _ _ _ _ _ _ _ E) as Hin.
  destruct (length (c_labels c)) as [|n] eqn:En; [split; intros; lia|].
  destruct (Hin n) as [Hb Hp]; [apply elem_of_seq; lia|].
  apply lookup_lt_is_Some_1 in Hb. rewrite !length_fmap in Hb.
  split; [lia|]. intros xs Exs. rewrite Exs in Hp.
  apply lookup_lt_is_Some_1 in Hp. lia.
Qed.

(** Every sample falls into exactly one of the four buckets. *)
Lemma bucket_partition rs :
  length (bucket "tp" rs) + length (bucket "tn" rs)
  + length (bucket "fp" rs) + length (bucket "fn" rs) = length rs.
Proof.
  induction rs as [|r rs IH]; [done|].
  pose proof (curr_key_in_keys (gt_half (row_conf r)) r.1.2) as Hk.
  fold (row_key r) in Hk.
  unfold bucket in *. rewrite !filter_cons.
  key_cases Hk; repeat case_decide; try done; simpl; lia.
Qed.

Lemma count_of_lookup s k c : confusion_cnt s !! k = Some c → count_of s k = c.
Proof. unfold count_of. by intros ->. Qed.

Lemma reachable_has_keys cs s : reachable cs s → has_keys s.
Proof.
  induction 1 as [|cs s c s' Hr IH Hc]; [apply init_has_keys|].
  destruct (do_call_ok_inv _ _ _ Hc) as [Hp Hx].
  destruct (update_returns s (c_loss c) _ _ _ IH Hp Hx)
    as (s0 & Hu & _ & _ & _ & Ec & Ea & Epl).
  unfold do_call in Hc. rewrite Hu in Hc. injection Hc as <-.
  apply foldl_record_has_keys. intros k Hk. rewrite Ec, Ea, Epl. by apply IH.
Qed.

(** C9, as the code has it: in every state reached from a fresh
    tracker by calls of [update] that return, each of the four counts
    is the length of the confidence array under the same key, and also
    of the path list under that key when every call supplied paths;
    and the four counts add up to the number of samples over all the
    calls. *)
Theorem reachable_counts_invariant cs s :
  reachable cs s →
  (∀ k, k ∈ keys →
     ∃ c a pl,
       confusion_cnt s !! k = Some c
       ∧ confusion_arrays s !! k = Some a
       ∧ confusion_paths s !! k = Some pl
       ∧ c = length a
       ∧ (Forall (λ c, is_Some (c_paths c)) cs → c = length pl))
  ∧ count_of s "tp" + count_of s "tn" + count_of s "fp" + count_of s "fn"
    = sum_list_with (length ∘ c_labels) cs.
Proof.
  induction 1 as [|cs s c s' Hr [IHk IHs] Hc].
  - split; [|done]. intros k Hk.
    key_cases Hk; by exists 0, [], [].
  - pose proof (reachable_has_keys _ _ Hr) as Hkeys.
    destruct (do_call_ok_inv _ _ _ Hc) as [Hp Hx].
    destruct (update_returns s (c_loss c) _ _ _ Hkeys Hp Hx)
      as (s0 & Hu & _ & _ & _ & Ec & Ea & Epl).
    unfold do_call in Hc. rewrite Hu in Hc. injection Hc as <-.
    set (rs := rows (c_preds c) (c_labels c) (c_paths c)).
    assert (Hcnt : ∀ k, k ∈ keys →
              count_of (foldl record s0 rs) k = count_of s k + length (bucket k rs)).
    { intros k Hk. destruct (IHk k Hk) as (c0 & _ & _ & Hc0 & _).
      rewrite (count_of_lookup s k c0 Hc0).
      apply count_of_lookup. by rewrite foldl_record_cnt, Ec, Hc0. }
    split.
    + intros k Hk. destruct (IHk k Hk) as (c0 & a & pl & Hc0 & Ha & Hpl & Hca & Hcp).
      eexists _, _, _. rewrite foldl_record_cnt, foldl_record_arrays, foldl_record_paths.
      rewrite Ec, Ea, Epl, Hc0, Ha, Hpl. simpl.
      repeat split; try reflexivity.
      * rewrite length_app, length_fmap. lia.
      * intros Hall. apply Forall_app in Hall as [Hall Hlast].
        apply Forall_singleton in Hlast as [xs Hxs].
        rewrite length_app, omap_snd_length; [rewrite <- (Hcp Hall); lia|].
        apply Forall_bucket. subst rs. rewrite Hxs.
        apply (rows_paths (c_preds c) (c_labels c) (Some xs)).
    + rewrite !Hcnt by (apply list_elem_of_In; simpl; tauto).
      rewrite sum_list_with_app. simpl.
      pose proof (bucket_partition rs) as Hb.
      assert (length rs = length (c_labels c)) by (by apply rows_length).
      lia.
Qed.

(** A call with enough predictions and paths extends a reachable
    state: the hypothesis of [reachable_update] can be met. *)
Lemma reachable_step cs s c :
  reachable cs s →
  length (c_labels c) ≤ length (c_preds c) →
  (∀ xs, c_paths c = Some xs → length (c_labels c) ≤ length xs) →
  ∃ s', do_call c s = (Ok tt, s') ∧ reachable (cs ++ [c]) s'.
Proof.
  intros Hr Hp Hx.
  destruct (update_returns s (c_loss c) _ _ _ (reachable_has_keys _ _ Hr) Hp Hx)
    as (s0 & Hu & _).
  eexists. split; [exact Hu|]. by apply (reachable_update cs s c).
Qed.

(** *** The dict of counts keeps its four keys, and [np.sum] adds the
    four counts *)

Lemma foldl_record_dom rs s :
  dom (confusion_cnt (foldl record s rs)) = dom (confusion_cnt s).
Proof.
  revert s. induction rs as [|r rs IH]; intros s; simpl; [done|].
  by rewrite IH, record_cnt, dom_alter_L.
Qed.

Lemma reachable_dom cs s :
  reachable cs s → dom (confusion_cnt s) = dom (four 0 0 0 0).
Proof.
  induction 1 as [|cs s c s' Hr IH Hc]; [done|].
  destruct (do_call_ok_inv _ _ _ Hc) as [Hp Hx].
  destruct (update_returns s (c_loss c) _ _ _ (reachable_has_keys _ _ Hr) Hp Hx)
    as (s0 & Hu & _ & _ & _ & Ec & _).
  unfold do_call in Hc. rewrite Hu in Hc. injection Hc as <-.
  by rewrite foldl_record_dom, Ec.
Qed.

Lemma four_lookup {A} (a b c d : A) :
  four a b c d !! "tp" = Some a ∧ four a b c d !! "tn" = Some b
  ∧ four a b c d !! "fp" = Some c ∧ four a b c d !! "fn" = Some d.
Proof. done. Qed.

Lemma four_lookup_other {A} (a b c d : A) k : k ∉ keys → four a b c d !! k = None.
Proof.
  unfold keys, four. rewrite !not_elem_of_cons. intros (? & ? & ? & ? & _).
  by rewrite !lookup_insert_ne.
Qed.

Lemma four_eta (m : gmap string nat) a b c d :
  m !! "tp" = Some a → m !! "tn" = Some b → m !! "fp" = Some c → m !! "fn" = Some d →
  dom m = dom (four 0 0 0 0) →
  m = four a b c d.
Proof.
  intros Ha Hb Hc Hd Hdom. apply map_eq. intros k.
  destruct (decide (k ∈ keys)) as [Hk|Hk].
  - key_cases Hk; by etrans.
  - rewrite (four_lookup_other a b c d k Hk). apply not_elem_of_dom.
    rewrite Hdom. apply not_elem_of_dom. by apply four_lookup_other.
Qed.

Lemma map_fold_four a b c d :
  map_fold (λ (_ : string) cnt acc, cnt + acc) 0 (four a b c d) = a + b + c + d.
Proof.
  unfold four.
  rewrite !map_fold_insert_L, map_fold_empty; try done; intros; lia.
Qed.

(** On a reachable state the getters read the four counts. *)
Lemma reachable_counts cs s :
  reachable cs s →
  confusion_cnt s
  = four (count_of s "tp") (count_of s "tn") (count_of s "fp") (count_of s "fn").
Proof.
  intros Hr. pose proof (reachable_has_keys _ _ Hr) as Hk.
  apply four_eta; [..|by apply (reachable_dom cs)].
  all: match goal with
       | |- _ !! ?k = _ =>
           destruct (Hk k) as ([c Hc] & _); [apply list_elem_of_In; simpl; tauto|];
           by rewrite (count_of_lookup _ _ _ Hc)
       end.
Qed.

(** *** Calls that raise

    An iteration either raises before it has changed anything, or
    records its sample, or (when the path is missing) raises after it
    has recorded the count and the confidence but not the path. *)
Lemma update_sample_outcomes preds labels paths i s :
  has_keys s →
  let r := update_sample (sigmoid <$> preds) (gt_half <$> (sigmoid <$> preds))
             labels paths i s in
  r = (Raise IndexError, s)
  ∨ (∃ row, r = (Ok tt, record s row))
  ∨ (∃ p l xs, paths = Some xs ∧ xs !! i = None
               ∧ r = (Raise IndexError, record s (p, l, None))).
Proof.
  intros Hk r. subst r.
  destruct (preds !! i) as [p|] eqn:Ep; last first.
  { left. unfold update_sample, Py.bind, Py.lift.
    by rewrite !list_lookup_fmap, Ep. }
  destruct (labels !! i) as [l|] eqn:El; last first.
  { left. unfold update_sample, Py.bind, Py.lift.
    by rewrite !list_lookup_fmap, Ep, El. }
  assert (Hsig : (sigmoid <$> preds) !! i = Some (sigmoid p))
    by (by rewrite list_lookup_fmap, Ep).
  assert (Hbin : (gt_half <$> (sigmoid <$> preds)) !! i = Some (gt_half (sigmoid p)))
    by (by rewrite !list_lookup_fmap, Ep).
  destruct paths as [xs|]; [destruct (xs !! i) as [x|] eqn:Ex|].
  - right; left. exists (p, l, Some x).
    apply update_sample_record; eauto.
  - right; right. exists p, l, xs. split; [done|]. split; [done|].
    destruct (Hk _ (curr_key_in_keys (gt_half (sigmoid p)) l))
      as ([c Hc] & [a Ha] & [pl Hpl]).
    unfold update_sample, record, row_key, row_conf; simpl.
    unfold Py.bind, Py.lift, Py.get, Py.modify, Py.ret; simpl.
    rewrite Hbin, El; simpl. rewrite Hc; simpl. rewrite Ha, Hsig; simpl.
    rewrite Hpl, Ex; simpl.
    rewrite (insert_alter _ _ (λ c, c + 1) _ Hc).
    by rewrite (insert_alter _ _ (λ a, a ++ [float_of (sigmoid p)]) _ Ha).
  - right; left. exists (p, l, None).
    by apply update_sample_record.
Qed.

Lemma record_counts_match s r :
  counts_match_arrays s → counts_match_arrays (record s r).
Proof.
  intros Hm k Hk. destruct (Hm k Hk) as (c & a & Hc & Ha & Hca).
  rewrite record_cnt, record_arrays, !lookup_alter.
  case_decide as Hr.
  - rewrite Hr, Hc, Ha. simpl. eexists _, _. split; [done|]. split; [done|].
    rewrite length_app. simpl. lia.
  - by exists c, a.
Qed.

Lemma for_each_counts_match preds labels paths ixs s :
  has_keys s → counts_match_arrays s →
  let s' := (Py.for_each ixs
               (update_sample (sigmoid <$> preds) (gt_half <$> (sigmoid <$> preds))
                  labels paths) s).2 in
  has_keys s' ∧ counts_match_arrays s'.
Proof.
  revert s. induction ixs as [|i ixs IH]; intros s Hk Hm; simpl; [done|].
  unfold Py.bind.
  destruct (update_sample_outcomes preds labels paths i s Hk)
    as [->|[[row ->]|(p & l & xs & _ & _ & ->)]]; simpl.
  - done.
  - apply IH; [by apply record_has_keys|by apply record_counts_match].
  - split; [by apply record_has_keys|by apply record_counts_match].
Qed.

(** X9: whatever the calls made on a fresh tracker, returning or
    raising, the four keys stay and each count stays the length of
    the array of confidences under the same key. *)
Lemma run_counts_match cs :
  has_keys (run cs init) ∧ counts_match_arrays (run cs init).
Proof.
  induction cs as [|c cs [IHk IHm]] using rev_ind.
  - split; [apply init_has_keys|]. intros k Hk. key_cases Hk; by exists 0, [].
  - rewrite run_snoc, do_call_unfold. by apply for_each_counts_match.
Qed.

(** C8, as the code has it: on a reachable state [get_precision]
    raises [ZeroDivisionError] exactly when tp + fp = 0 and [get_recall]
    exactly when tp + fn = 0, and otherwise they return the quotient;
    [get_accuracy] never raises: it returns 100 times numpy's quotient
    of tp + tn by the sum of the four counts, also when that sum is 0. *)
Theorem getters_partiality cs s :
  reachable cs s →
  let tp := count_of s "tp" in
  let tn := count_of s "tn" in
  let fp := count_of s "fp" in
  let fn := count_of s "fn" in
  (get_precision s = Raise ZeroDivisionError ↔ tp + fp = 0)
  ∧ (tp + fp ≠ 0 → get_precision s = Ok (int_truediv tp (tp + fp)))
  ∧ (get_recall s = Raise ZeroDivisionError ↔ tp + fn = 0)
  ∧ (tp + fn ≠ 0 → get_recall s = Ok (int_truediv tp (tp + fn)))
  ∧ get_accuracy s
    = Ok (int_fmul 100 (np_true_divide (tp + tn) (tp + tn + fp + fn))).
Proof.
  intros Hr tp tn fp fn.
  unfold get_precision, get_recall, get_accuracy, confusion_cnt_sum, getitem.
  rewrite (reachable_counts cs s Hr). fold tp tn fp fn.
  rewrite map_fold_four.
  destruct (four_lookup tp tn fp fn) as (-> & -> & -> & ->). simpl.
  repeat split; try done; repeat case_decide; try done; intros; lia.
Qed.

End Facts.


(** The invariant at the state after one call on two samples. *)
Lemma reachable_counts_invariant_witness :
  let F := Exact.floats in
  let c := MetricTracker.Call 0%Q [2; -2]%Q [1; 0]%Z (Some ["a.png"; "b.png"]) in
  let s := (MetricTracker.do_call c MetricTracker.init).2 in
  MetricTracker.reachable [c] s
  ∧ MetricTracker.count_of s "tp" + MetricTracker.count_of s "tn"
    + MetricTracker.count_of s "fp" + MetricTracker.count_of s "fn" = 2.
Proof.
  intros F c s.
  assert (Hr : MetricTracker.reachable [c] s).
  { apply (MetricTracker.reachable_update [] MetricTracker.init c s).
    - constructor.
    - vm_compute. reflexivity. }
  split; [exact Hr|].
  exact (proj2 (reachable_counts_invariant [c] s Hr)).
Defined.

(** The getters on a fresh tracker. *)
Lemma getters_partiality_witness :
  let F := Exact.floats in
  MetricTracker.reachable [] MetricTracker.init
  ∧ MetricTracker.get_accuracy MetricTracker.init = Ok NaN.
Proof.
  intros F.
  assert (Hr : MetricTracker.reachable [] MetricTracker.init) by constructor.
  split; [exact Hr|].
  destruct (getters_partiality [] MetricTracker.init Hr) as (_ & _ & _ & _ & Ha).
  rewrite Ha. reflexivity.
Defined.

(** On a fresh tracker all four counts are 0, and [get_accuracy]
    returns [nan] where [get_precision] and [get_recall] raise. *)
Lemma get_accuracy_fresh_returns_nan :
  let F := Exact.floats in
  let s := MetricTracker.init in
  MetricTracker.count_of s "tp" = 0 ∧ MetricTracker.count_of s "tn" = 0
  ∧ MetricTracker.count_of s "fp" = 0 ∧ MetricTracker.count_of s "fn" = 0
  ∧ MetricTracker.get_precision s = Raise ZeroDivisionError
  ∧ MetricTracker.get_recall s = Raise ZeroDivisionError
  ∧ MetricTracker.get_accuracy s = Ok NaN
  ∧ MetricTracker.get_accuracy s ≠ Raise ZeroDivisionError.
Proof. repeat split; try (vm_compute; reflexivity). discriminate. Qed.

(** Two calls that raise part-way.  Given one path for two labels, the
    second sample is counted under [tn] before [paths[1]] raises: the
    call supplied paths, yet the count under [tn] is 1 and the path
    list under [tn] is empty.  Given one prediction for two labels, the
    call raises at the second sample: the four counts add up to 1
    where the call was given 2 labels. *)
Lemma raising_call_breaks_invariant :
  let F := Exact.floats in
  let c1 := MetricTracker.Call 0%Q [2; -2]%Q [1; 0]%Z (Some ["a.png"]) in
  let s1 := MetricTracker.run [c1] MetricTracker.init in
  let c2 := MetricTracker.Call 0%Q [2%Q] [1; 0]%Z None in
  let s2 := MetricTracker.run [c2] MetricTracker.init in
  (MetricTracker.do_call c1 MetricTracker.init).1 = Raise IndexError
  ∧ Forall (λ c, is_Some (MetricTracker.c_paths c)) [c1]
  ∧ MetricTracker.confusion_cnt s1 !! "tn" = Some 1
  ∧ MetricTracker.confusion_paths s1 !! "tn" = Some []
  ∧ (MetricTracker.do_call c2 MetricTracker.init).1 = Raise IndexError
  ∧ MetricTracker.count_of s2 "tp" + MetricTracker.count_of s2 "tn"
    + MetricTracker.count_of s2 "fp" + MetricTracker.count_of s2 "fn" = 1
  ∧ sum_list_with (length ∘ MetricTracker.c_labels) [c2] = 2.
Proof.
  intros F c1 s1 c2 s2.
  split; [vm_compute; reflexivity|].
  split; [by repeat constructor|].
  repeat split; vm_compute; reflexivity.
Qed.

End TrackerFacts.

(** ** The random generator *)

Module RandomFacts.
Import Random.

(** A swap reads the list through the transposition of [i] and [j]. *)
Lemma swap_lookup {A} (x : list A) i j k a b :
  x !! i = Some a → x !! j = Some b →
  swap x i j !! k
  = x !! (if decide (k = i) then j else if decide (k = j) then i else k).
Proof.
  intros Ha Hb. unfold swap. rewrite Ha, Hb.
  pose proof (lookup_lt_Some _ _ _ Ha). pose proof (lookup_lt_Some _ _ _ Hb).
  rewrite !list_lookup_insert, !length_insert.
  repeat case_decide; destruct_and?; subst; try done; try lia; congruence.
Qed.

Lemma swap_Permutation {A} (x : list A) i j : swap x i j ≡ₚ x.
Proof.
  destruct (x !! i) as [a|] eqn:Ha; [|by unfold swap; rewrite Ha].
  destruct (x !! j) as [b|] eqn:Hb; [|by unfold swap; rewrite Ha, Hb].
  apply Permutation_inj. split.
  { unfold swap. by rewrite Ha, Hb, !length_insert. }
  exists (λ k, if decide (k = i) then j else if decide (k = j) then i else k).
  split; [|intros k; by apply (swap_lookup x i j k a b)].
  intros k1 k2. repeat case_decide; congruence.
Qed.

(** The shuffle always returns, with a rearrangement of its input. *)
Lemma shuffle_from_spec {A} i (x : list A) g :
  ∃ x' g', shuffle_from i x g = (Ok x', g') ∧ x' ≡ₚ x.
Proof.
  revert x g. induction i as [|i IH]; intros x g; simpl.
  - by exists x, g.
  - unfold Py.bind, random_interval.
    destruct (IH (swap x (S i) (g 0 mod S (S i))) (λ n, g (S n)))
      as (x' & g' & E & HP).
    exists x', g'. split; [exact E|]. by rewrite HP, swap_Permutation.
Qed.

Lemma permutation_spec n g :
  ∃ p g', permutation n g = (Ok p, g') ∧ p ≡ₚ seq 0 n.
Proof. apply shuffle_from_spec. Qed.

(** Reading a duplicate-free array at distinct subscripts gives
    distinct values. *)
Lemma take_at_NoDup {A} (a : list A) idx r :
  NoDup a → NoDup idx → Forall2 (λ i y, a !! i = Some y) idx r → NoDup r.
Proof.
  intros Ha Hidx HF. induction HF as [|i y idx r Hy HF IH]; [constructor|].
  apply NoDup_cons in Hidx as [Hi Hidx].
  apply NoDup_cons. split; [|by apply IH].
  intros Hin. apply list_elem_of_lookup in Hin as [n Hn].
  destruct (Forall2_lookup_r _ _ _ _ _ HF Hn) as (i' & Hi' & Hy').
  assert (i = i') as -> by (by apply (NoDup_lookup a _ _ y)).
  apply Hi. apply list_elem_of_lookup. eauto.
Qed.

(** A draw of [size] elements without replacement from an array that
    holds at least that many: the result reads the array at [size]
    distinct subscripts. *)
Lemma choice_spec {A} (a : list A) (size : Z) g :
  (0 ≤ size ≤ Z.of_nat (length a))%Z →
  ∃ idx r g',
    choice a size g = (Ok r, g')
    ∧ NoDup idx
    ∧ length idx = Z.to_nat size
    ∧ Forall2 (λ i y, a !! i = Some y) idx r.
Proof.
  intros Hsize. unfold choice.
  destruct (permutation_spec (length a) g) as (p & g' & Ep & Hp).
  assert (Hlen : length p = length a) by (by rewrite Hp, length_seq).
  set (idx := take (Z.to_nat size) p).
  assert (Hsome : is_Some (take_at a idx)).
  { apply mapM_is_Some_2, Forall_forall. intros i Hi. simpl.
    apply lookup_lt_is_Some_2.
    apply subseteq_take in Hi. rewrite Hp in Hi. apply elem_of_seq in Hi. lia. }
  destruct Hsome as [r Hr].
  exists idx, r, g'.
  repeat case_decide; try lia.
  rewrite (PyFacts.bind_ok _ _ _ _ _ Ep). fold idx. rewrite Hr.
  split; [done|]. split; [|split].
  - apply (sublist_NoDup _ p); [|apply sublist_take].
    rewrite Hp. apply NoDup_seq.
  - unfold idx. rewrite length_take. lia.
  - by apply mapM_Some_1.
Qed.

(** Asking for more than the array holds raises [ValueError], and the
    generator is left untouched. *)
Lemma choice_too_many {A} (a : list A) (size : Z) g :
  (Z.of_nat (length a) < size)%Z → choice a size g = (Raise ValueError, g).
Proof. intros Hsize. unfold choice. by repeat case_decide. Qed.

Lemma choice_negative {A} (a : list A) (size : Z) g :
  (size < 0)%Z → choice a size g = (Raise ValueError, g).
Proof. intros Hsize. unfold choice. by repeat case_decide. Qed.

(** What a returned draw looks like, without reference to the
    subscripts. *)
Lemma choice_ok_inv {A} (a : list A) (size : Z) g r g' :
  choice a size g = (Ok r, g') →
  (0 ≤ size ≤ Z.of_nat (length a))%Z
  ∧ length r = Z.to_nat size
  ∧ r ⊆ a
  ∧ (NoDup a → NoDup r).
Proof.
  intros E.
  destruct (decide (Z.of_nat (length a) < size)%Z) as [Hbig|Hbig].
  { by rewrite choice_too_many in E. }
  destruct (decide (size < 0)%Z) as [Hneg|Hneg].
  { by rewrite choice_negative in E. }
  assert (Hsize : (0 ≤ size ≤ Z.of_nat (length a))%Z) by lia.
  destruct (choice_spec a size g Hsize) as (idx & r0 & g0 & E0 & Hnd & Hlen & HF).
  rewrite E0 in E. injection E as <- <-.
  split; [done|]. split; [|split].
  - by rewrite <- (Forall2_length _ _ _ HF).
  - intros y Hy. apply list_elem_of_lookup in Hy as [n Hn].
    destruct (Forall2_lookup_r _ _ _ _ _ HF Hn) as (i & _ & Hi).
    apply list_elem_of_lookup. eauto.
  - intros Ha. by apply (take_at_NoDup a idx).
Qed.

End RandomFacts.

(** ** Class balancing *)

Module BalanceFacts.
Section Facts.
Context `{Platform}.
Import ECOLDataset.

Lemma elem_of_positive_indices d i :
  i ∈ positive_indices d ↔ label_at (samples d) i = Some 1.
Proof.
  unfold positive_indices. rewrite list_elem_of_filter, elem_of_seq.
  split; [by intros [? _]|]. intros E. split; [done|].
  unfold label_at in E. destruct (samples d !! i) eqn:Ei; [|done].
  apply lookup_lt_Some in Ei. lia.
Qed.

Lemma elem_of_negative_indices d i :
  i ∈ negative_indices d ↔ label_at (samples d) i = Some 0.
Proof.
  unfold negative_indices. rewrite list_elem_of_filter, elem_of_seq.
  split; [by intros [? _]|]. intros E. split; [done|].
  unfold label_at in E. destruct (samples d !! i) eqn:Ei; [|done].
  apply lookup_lt_Some in Ei. lia.
Qed.

Lemma NoDup_positive_indices d : NoDup (positive_indices d).
Proof. apply NoDup_filter, NoDup_seq. Qed.

Lemma NoDup_negative_indices d : NoDup (negative_indices d).
Proof. apply NoDup_filter, NoDup_seq. Qed.

(** Counting the positive samples among a list of subscripts made of
    positives followed by negatives. *)
Lemma filter_positive_app d (pos neg : list nat) :
  Forall (λ i, label_at (samples d) i = Some 1) pos →
  Forall (λ i, label_at (samples d) i = Some 0) neg →
  filter (λ i, label_at (samples d) i = Some 1) (pos ++ neg) = pos.
Proof.
  intros Hpos Hneg. rewrite filter_app.
  replace (filter _ neg) with (@nil nat).
  - rewrite app_nil_r. induction Hpos as [|i pos Hi _ IH]; [done|].
    by rewrite filter_cons_True, IH.
  - induction Hneg as [|i neg Hi _ IH]; [done|].
    rewrite filter_cons_False; [done|]. rewrite Hi. discriminate.
Qed.

(** What a call that returns has returned. *)
Lemma get_balanced_indices_ok_inv d g r g' :
  get_balanced_indices d g = (Ok r, g') →
  ∃ chosen,
    r = positive_indices d ++ chosen
    ∧ length (positive_indices d) ≤ length (negative_indices d)
    ∧ length chosen = length (positive_indices d)
    ∧ NoDup chosen
    ∧ chosen ⊆ negative_indices d.
Proof.
  unfold get_balanced_indices. intros E.
  apply PyFacts.bind_inv_ok in E as (chosen & g1 & Ec & Er).
  injection Er as <- <-.
  apply RandomFacts.choice_ok_inv in Ec as (Hsize & Hlen & Hsub & Hnd).
  exists chosen. split; [done|]. split; [lia|]. split; [lia|].
  split; [apply Hnd, NoDup_negative_indices|done].
Qed.

(** With no more positives than negatives the call returns. *)
Lemma get_balanced_indices_returns d g :
  length (positive_indices d) ≤ length (negative_indices d) →
  ∃ r g', get_balanced_indices d g = (Ok r, g').
Proof.
  intros Hle. unfold get_balanced_indices.
  destruct (RandomFacts.choice_spec (negative_indices d)
              (Z.of_nat (length (positive_indices d))) g)
    as (idx & chosen & g' & Ec & _); [lia|].
  eexists _, g'. by rewrite (PyFacts.bind_ok _ _ _ _ _ Ec).
Qed.

Lemma get_balanced_indices_NoDup d g r g' :
  get_balanced_indices d g = (Ok r, g') → NoDup r.
Proof.
  intros E. apply get_balanced_indices_ok_inv in E
    as (chosen & -> & _ & _ & Hnd & Hsub).
  apply NoDup_app. split; [apply NoDup_positive_indices|]. split; [|done].
  intros i Hpos Hneg. apply elem_of_positive_indices in Hpos.
  apply Hsub, elem_of_negative_indices in Hneg. congruence.
Qed.

(** C1: on a dataset with at least as many label-0 as label-1 samples,
    whatever the generator draws, [get_balanced_indices] returns the
    subscripts of all label-1 samples, each once, followed by as many
    pairwise distinct subscripts of label-0 samples; half of the
    subscripts returned are those of label-1 samples. *)
Theorem get_balanced_indices_balanced d g :
  length (positive_indices d) ≤ length (negative_indices d) →
  ∃ chosen g',
    get_balanced_indices d g = (Ok (positive_indices d ++ chosen), g')
    ∧ (∀ i, i ∈ positive_indices d ↔ label_at (samples d) i = Some 1)
    ∧ NoDup (positive_indices d)
    ∧ length chosen = length (positive_indices d)
    ∧ NoDup chosen
    ∧ (∀ i, i ∈ chosen → label_at (samples d) i = Some 0)
    ∧ 2 * length (filter (λ i, label_at (samples d) i = Some 1)
                    (positive_indices d ++ chosen))
      = length (positive_indices d ++ chosen).
Proof.
  intros Hle.
  destruct (get_balanced_indices_returns d g Hle) as (r & g' & E).
  destruct (get_balanced_indices_ok_inv d g r g' E)
    as (chosen & -> & _ & Hlen & Hnd & Hsub).
  exists chosen, g'. split; [done|].
  split; [apply elem_of_positive_indices|].
  split; [apply NoDup_positive_indices|].
  split; [done|]. split; [done|].
  assert (Hneg : ∀ i, i ∈ chosen → label_at (samples d) i = Some 0).
  { intros i Hi. by apply elem_of_negative_indices, Hsub. }
  split; [done|].
  rewrite filter_positive_app, length_app; [lia|..].
  - apply Forall_forall. intros i. apply elem_of_positive_indices.
  - by apply Forall_forall.
Qed.

(** C10: [get_balanced_indices] returns exactly when the label-1
    samples are at most as many as the label-0 samples; when they are
    more, the draw without replacement raises [ValueError]. *)
Theorem get_balanced_indices_succeeds_iff d g :
  ((∃ r g', get_balanced_indices d g = (Ok r, g'))
   ↔ length (positive_indices d) ≤ length (negative_indices d))
  ∧ ((∃ g', get_balanced_indices d g = (Raise ValueError, g'))
     ↔ length (negative_indices d) < length (positive_indices d)).
Proof.
  assert (Hfail : length (negative_indices d) < length (positive_indices d) →
                  get_balanced_indices d g = (Raise ValueError, g)).
  { intros Hlt. unfold get_balanced_indices.
    apply PyFacts.bind_raise, RandomFacts.choice_too_many. lia. }
  split; split.
  - intros (r & g' & E).
    by destruct (get_balanced_indices_ok_inv d g r g' E) as (_ & _ & ? & _).
  - apply get_balanced_indices_returns.
  - intros [g' E].
    destruct (decide (length (negative_indices d) < length (positive_indices d)))
      as [|Hge]; [done|].
    destruct (get_balanced_indices_returns d g) as (r & g1 & E1); [lia|].
    by rewrite E1 in E.
  - intros Hlt. exists g. by apply Hfail.
Qed.

End Facts.

(** The theorem on the toy dataset, which has one positive and two
    negative samples. *)
Lemma get_balanced_indices_balanced_witness :
  let d := Toy.dataset in
  length (ECOLDataset.positive_indices d) ≤ length (ECOLDataset.negative_indices d)
  ∧ ∃ chosen g',
      ECOLDataset.get_balanced_indices d Toy.zeros = (Ok ([2] ++ chosen), g')
      ∧ length chosen = 1.
Proof.
  intros d.
  assert (H1 : length (ECOLDataset.positive_indices d)
               ≤ length (ECOLDataset.negative_indices d)) by (vm_compute; lia).
  split; [exact H1|].
  destruct (get_balanced_indices_balanced d Toy.zeros H1)
    as (chosen & g' & E & _ & _ & Hlen & _).
  exists chosen, g'. split; [exact E|exact Hlen].
Defined.

End BalanceFacts.

(** ** The order of strings and [sort] *)

Module StrOrder.

Lemma leb_nil_l s : String.leb EmptyString s = true.
Proof. by destruct s. Qed.

Lemma leb_cons x a y b :
  String.leb (String x a) (String y b) = true
  ↔ (N_of_ascii x < N_of_ascii y)%N ∨ (x = y ∧ String.leb a b = true).
Proof.
  unfold String.leb. simpl. unfold Ascii.compare.
  destruct (N.compare_spec (N_of_ascii x) (N_of_ascii y)) as [E|L|G].
  - assert (x = y) as ->.
    { by rewrite <- (ascii_N_embedding x), <- (ascii_N_embedding y), E. }
    split; [by right|]. intros [L|[_ Hab]]; [lia|done].
  - split; [by left|done].
  - split; [done|]. intros [L|[-> _]]; lia.
Qed.

Global Instance str_le_trans : Transitive str_le.
Proof.
  unfold str_le. intros a. induction a as [|x a IH]; intros b c Hab Hbc.
  - apply leb_nil_l.
  - destruct b as [|y b]; [done|]. destruct c as [|z c]; [done|].
    apply leb_cons in Hab, Hbc. apply leb_cons.
    destruct Hab as [Hxy|[-> Hab]], Hbc as [Hyz|[-> Hbc]].
    + left. lia.
    + by left.
    + by left.
    + right. split; [done|]. by apply (IH b).
Qed.

Global Instance str_le_total : Total str_le.
Proof. intros a b. apply String.leb_total. Qed.

Global Instance str_le_antisymm : AntiSymm (=) str_le.
Proof. intros a b. apply String.leb_antisym. Qed.

Lemma sort_Sorted l : Sorted str_le (ECOLDataset.sort l).
Proof. apply Sorted_merge_sort. apply _. Qed.

Lemma sort_Permutation l : ECOLDataset.sort l ≡ₚ l.
Proof. apply merge_sort_Permutation. Qed.

(** The sorted list depends on the names only, not on the order in
    which the system reported them. *)
Lemma sort_unique l1 l2 : l1 ≡ₚ l2 → ECOLDataset.sort l1 = ECOLDataset.sort l2.
Proof.
  intros Hp. apply (Sorted_unique str_le); try apply sort_Sorted.
  by rewrite !sort_Permutation.
Qed.

End StrOrder.

(** ** Paths *)

Module PathFacts.
Import Path.

Lemma append_cons x a b : String x a +:+ b = String x (a +:+ b).
Proof. reflexivity. Qed.

Lemma append_assoc a b c : (a +:+ b) +:+ c = a +:+ (b +:+ c).
Proof.
  induction a as [|x a IH]; [done|]. rewrite !append_cons. by f_equal.
Qed.

Lemma append_snoc_ne a b : b ≠ EmptyString → a +:+ b ≠ EmptyString.
Proof. intros Hb. destruct a; [done|]. by rewrite append_cons. Qed.

Lemma split_last_no_sep s : has_sep s = false → split_last s = (EmptyString, s).
Proof.
  induction s as [|c s IH]; simpl; [done|].
  intros Hs. apply orb_false_iff in Hs as [Hc Hs].
  rewrite (IH Hs). simpl. by rewrite Hc.
Qed.

Lemma split_last_joined a t :
  has_sep t = false → split_last (a +:+ "/" +:+ t) = (a +:+ "/", t).
Proof.
  intros Ht. induction a as [|c a IH].
  - change (EmptyString +:+ "/" +:+ t) with (String sep t). simpl.
    by rewrite (split_last_no_sep t Ht).
  - rewrite (append_cons c a), (append_cons c a "/"). simpl. rewrite IH.
    rewrite bool_decide_eq_false_2; [done|].
    by apply append_snoc_ne.
Qed.

Lemma rstrip_sep_snoc a : rstrip_sep (a +:+ "/") = rstrip_sep a.
Proof.
  induction a as [|c a IH]; [done|]. rewrite append_cons. simpl. by rewrite IH.
Qed.

Lemma rstrip_sep_id a : endswith_sep a = false → rstrip_sep a = a.
Proof.
  induction a as [|c a IH]; [done|]. destruct a as [|c' a'].
  - simpl. by intros ->.
  - intros He. change (endswith_sep (String c' a') = false) in He.
    change (rstrip_sep (String c (String c' a')))
      with (let r := rstrip_sep (String c' a') in
            if bool_decide (r = EmptyString) && bool_decide (c = sep) then EmptyString else String c r).
    by rewrite (IH He).
Qed.

Lemma endswith_sep_app a b : b ≠ EmptyString → endswith_sep (a +:+ b) = endswith_sep b.
Proof.
  intros Hb. induction a as [|c a IH]; [done|].
  rewrite append_cons. simpl. destruct (a +:+ b) as [|c' r] eqn:E; [|done].
  by apply append_snoc_ne in E.
Qed.

Lemma endswith_no_sep b : has_sep b = false → endswith_sep b = false.
Proof.
  induction b as [|c b IH]; [done|]. simpl.
  intros Hb. apply orb_false_iff in Hb as [Hc Hb].
  destruct b; [done|]. by apply IH.
Qed.

Lemma endswith_sep_inv a : endswith_sep a = true → ∃ a0, a = a0 +:+ "/".
Proof.
  induction a as [|c a IH]; [done|]. destruct a as [|c' a'].
  - simpl. intros Hc. apply bool_decide_eq_true in Hc as ->. by exists EmptyString.
  - intros He. destruct (IH He) as [a0 ->]. by exists (String c a0).
Qed.

Lemma startswith_no_sep b : has_sep b = false → startswith_sep b = false.
Proof.
  destruct b as [|c b]; [done|]. simpl.
  intros Hb. by apply orb_false_iff in Hb as [Hc _].
Qed.

(** Joining a name to a directory puts the name after a separator, or
    alone when the directory is the empty string. *)
Lemma join_name dir name :
  has_sep name = false →
  ∃ pre, join dir name = pre +:+ name ∧ (pre = EmptyString ∨ ∃ pre0, pre = pre0 +:+ "/").
Proof.
  intros Hn. unfold join. rewrite (startswith_no_sep name Hn).
  destruct (bool_decide (dir = EmptyString)) eqn:Ed; simpl.
  - apply bool_decide_eq_true in Ed as ->. exists EmptyString. split; [done|by left].
  - destruct (endswith_sep dir) eqn:Ee.
    + exists dir. split; [done|]. right. by apply endswith_sep_inv.
    + exists (dir +:+ "/"). split; [by rewrite append_assoc|]. right. by exists dir.
Qed.

Lemma basename_join dir name : has_sep name = false → basename (join dir name) = name.
Proof.
  intros Hn. destruct (join_name dir name Hn) as (pre & -> & [->|[pre0 ->]]).
  - unfold basename. simpl. by rewrite split_last_no_sep.
  - unfold basename. by rewrite append_assoc, split_last_joined.
Qed.

Lemma join_name_shape dir name :
  is_name name → join dir name ≠ EmptyString ∧ endswith_sep (join dir name) = false.
Proof.
  intros [Hne Hn]. destruct (join_name dir name Hn) as (pre & -> & _).
  split; [by apply append_snoc_ne|].
  rewrite endswith_sep_app by done. by apply endswith_no_sep.
Qed.

Lemma dirname_join dir name :
  dir ≠ EmptyString → endswith_sep dir = false → has_sep name = false →
  dirname (join dir name) = dir.
Proof.
  intros Hd He Hn.
  assert (join dir name = dir +:+ "/" +:+ name) as ->.
  { unfold join.
    by rewrite (startswith_no_sep name Hn), He,
      (bool_decide_eq_false_2 (dir = EmptyString)). }
  unfold dirname. rewrite split_last_joined by done. simpl.
  rewrite rstrip_sep_snoc, rstrip_sep_id by done.
  by rewrite bool_decide_eq_false_2.
Qed.

(** A file joined to a sub-directory joined to a root lies in that
    sub-directory. *)
Lemma parent_name_join root subdir img_name :
  is_name subdir → has_sep img_name = false →
  parent_name (join (join root subdir) img_name) = subdir.
Proof.
  intros Hs Hi. destruct (join_name_shape root subdir Hs) as [Hne He].
  unfold parent_name. rewrite dirname_join by done.
  apply basename_join. by destruct Hs.
Qed.

End PathFacts.

(** ** ECOLDataset *)

Module DatasetFacts.
Section Facts.
Context `{Platform}.
Import ECOLDataset.

Lemma label_map_snoc l x : label_map (l ++ [x]) = <[x := length l]> (label_map l).
Proof.
  unfold label_map. rewrite imap_app, foldl_app. simpl.
  by rewrite Nat.add_0_r.
Qed.

(** On distinct names the map sends each name to its position. *)
Lemma label_map_lookup l name i :
  NoDup l → label_map l !! name = Some i ↔ l !! i = Some name.
Proof.
  revert i. induction l as [|x l IH] using rev_ind; intros i Hnd.
  - unfold label_map. simpl. by rewrite lookup_empty, lookup_nil.
  - apply NoDup_app in Hnd as (Hnd & Hx & _).
    rewrite label_map_snoc, lookup_insert, lookup_snoc_Some.
    case_decide as Hxn.
    + subst name. split.
      * intros [= <-]. by right.
      * intros [[Hlt Hl]|[-> _]]; [|done].
        exfalso. apply (Hx x); [|by left].
        apply list_elem_of_lookup. eauto.
    + rewrite (IH i Hnd). split.
      * intros Hl. left. split; [|done]. by apply lookup_lt_Some in Hl.
      * by intros [[_ Hl]|[_ ?]].
Qed.

Lemma collect_dir_ok_inv {S} m subdir subdir_path names acc (st st' : S) r :
  collect_dir m subdir subdir_path names acc st = (Ok r, st') →
  st' = st
  ∧ ∃ rest,
      r = acc ++ rest
      ∧ Forall (λ smp : sample,
                  ∃ img_name, img_name ∈ names
                    ∧ smp.1 = Path.join subdir_path img_name
                    ∧ m !! subdir = Some smp.2) rest.
Proof.
  revert acc. induction names as [|img_name names IH]; intros acc; simpl.
  - intros [= <- <-]. split; [done|]. exists []. by rewrite app_nil_r.
  - unfold Py.bind, Py.lift.
    destruct (m !! subdir) as [label|] eqn:El; [|done]. simpl.
    intros E. apply IH in E as (-> & rest & -> & Hrest).
    split; [done|].
    exists ((Path.join subdir_path img_name, label) :: rest).
    split; [by rewrite <- app_assoc|]. constructor.
    + exists img_name. repeat split; try done. by left.
    + eapply Forall_impl; [exact Hrest|].
      intros smp (im & ? & ? & ?). exists im. repeat split; try done. by right.
Qed.

Lemma collect_ok_inv {S} root m ds acc (st st' : S) r :
  collect root m ds acc st = (Ok r, st') →
  st' = st ∧ ∃ rest, r = acc ++ rest ∧ Forall (collected root m ds) rest.
Proof.
  revert acc. induction ds as [|subdir ds IH]; intros acc; simpl.
  - intros [= <- <-]. split; [done|]. exists []. by rewrite app_nil_r.
  - unfold Py.bind at 1. unfold Py.lift.
    destruct (listdir (Path.join root subdir)) as [names|] eqn:En; [|done].
    simpl. intros E.
    apply PyFacts.bind_inv_ok in E as (acc' & st1 & Ed & E).
    apply collect_dir_ok_inv in Ed as (-> & rest1 & -> & Hrest1).
    apply IH in E as (-> & rest & -> & Hrest).
    split; [done|]. exists (rest1 ++ rest).
    split; [by rewrite app_assoc|]. apply Forall_app. split.
    + eapply Forall_impl; [exact Hrest1|].
      intros smp (im & ? & ? & ?).
      exists subdir, names, im. repeat split; try done. by left.
    + eapply Forall_impl; [exact Hrest|].
      intros smp (sd & ns & im & ? & ? & ? & ? & ?).
      exists sd, ns, im. repeat split; try done. by right.
Qed.

Lemma init_ok_inv {S} dir tr (st st' : S) d :
  init dir tr st = (Ok d, st') →
  st' = st
  ∧ ∃ listing,
      listdir (abspath dir) = Some listing
      ∧ root_dir d = abspath dir
      ∧ subdirs d = sort listing
      ∧ dir_label_map d = label_map (sort listing)
      ∧ len d = length (samples d)
      ∧ transform d = default to_tensor tr
      ∧ Forall (collected (root_dir d) (dir_label_map d) (subdirs d)) (samples d).
Proof.
  unfold init, Py.bind, Py.lift.
  destruct (listdir (abspath dir)) as [listing|] eqn:El; [|done]. simpl.
  destruct (collect _ _ _ _ st) as [[smps|e] st1] eqn:Ec; [|done].
  intros [= <- <-]. apply collect_ok_inv in Ec as (-> & rest & -> & Hrest).
  split; [done|]. exists listing. by repeat split.
Qed.

(** C3: the label of every collected sample is the position, in the
    sorted list of the root's entries, of the sub-directory the sample
    was collected from, which is the name of the parent directory of
    the sample's path when the entries are proper names; and the
    name-to-label map is a function of the set of names: any other
    listing of the same names yields the same sorted list and the same
    map. *)
Theorem labels_are_sorted_positions {S} dir tr (st st' : S) d listing :
  init dir tr st = (Ok d, st') →
  listdir (abspath dir) = Some listing →
  NoDup listing →
  Sorted str_le (subdirs d)
  ∧ subdirs d ≡ₚ listing
  ∧ (∀ name i, dir_label_map d !! name = Some i ↔ subdirs d !! i = Some name)
  ∧ (∀ p label, (p, label) ∈ samples d →
       ∃ subdir names img_name,
         listdir (Path.join (root_dir d) subdir) = Some names
         ∧ img_name ∈ names
         ∧ p = Path.join (Path.join (root_dir d) subdir) img_name
         ∧ subdirs d !! label = Some subdir
         ∧ (Path.is_name subdir → Path.has_sep img_name = false →
            Path.parent_name p = subdir))
  ∧ (∀ listing',
       NoDup listing' → (∀ x, x ∈ listing' ↔ x ∈ listing) →
       sort listing' = subdirs d ∧ label_map (sort listing') = dir_label_map d).
Proof.
  intros Hinit Hl Hnd.
  apply init_ok_inv in Hinit
    as (_ & listing0 & Hl0 & Hroot & Hsub & Hmap & _ & _ & Hcoll).
  rewrite Hl in Hl0. injection Hl0 as <-.
  assert (Hnds : NoDup (subdirs d)).
  { by rewrite Hsub, StrOrder.sort_Permutation. }
  assert (Hlookup : ∀ name i,
             dir_label_map d !! name = Some i ↔ subdirs d !! i = Some name).
  { intros name i. rewrite Hmap, <- Hsub. by apply label_map_lookup. }
  split; [rewrite Hsub; apply StrOrder.sort_Sorted|].
  split; [rewrite Hsub; apply StrOrder.sort_Permutation|].
  split; [done|]. split.
  - intros p label Hin. rewrite Forall_forall in Hcoll.
    destruct (Hcoll _ Hin) as (subdir & names & img & _ & Hn & Hi & Hp & Hlab).
    exists subdir, names, img.
    split; [done|]. split; [done|]. split; [done|]. split; [by apply Hlookup|].
    intros Hs Hi'. simpl in Hp. subst p. by apply PathFacts.parent_name_join.
  - intros listing' Hnd' Hsame.
    assert (ECOLDataset.sort listing' = ECOLDataset.sort listing) as ->.
    { apply StrOrder.sort_unique. by apply NoDup_Permutation. }
    by rewrite Hmap, Hsub.
Qed.

Lemma py_index_nat {A} (l : list A) (idx : Z) :
  (0 ≤ idx)%Z → py_index l idx = l !! Z.to_nat idx.
Proof.
  intros Hidx. unfold py_index.
  destruct (0 <=? idx)%Z eqn:E; [done|]. apply Z.leb_gt in E. lia.
Qed.

(** C7, as the code has it: a constructed dataset is the sequence of
    its samples: [__len__] is their number, and for every position
    [idx] in range [__getitem__(idx)] reads the sample [(path, label)]
    stored at [idx]; when [cv2] can read the file at [path] it returns
    the image decoded from it (transformed), with [label] and [path],
    and when [cv2] cannot it raises, leaving the state as it was. *)
Theorem getitem_positional {S} dir tr (st st' : S) d (idx : Z) (s : S) :
  init dir tr st = (Ok d, st') →
  (0 ≤ idx < Z.of_nat (__len__ d))%Z →
  __len__ d = length (samples d)
  ∧ ∃ img_path label,
      samples d !! Z.to_nat idx = Some (img_path, label)
      ∧ __getitem__ d idx s
        = (match imread img_path with
           | Some image => Ok (transform d (bgr2rgb image), label, img_path)
           | None => Raise CvError
           end, s).
Proof.
  intros Hinit Hidx.
  apply init_ok_inv in Hinit as (_ & _ & _ & _ & _ & _ & Hlen & _).
  unfold __len__ in *. split; [done|].
  destruct (lookup_lt_is_Some_2 (samples d) (Z.to_nat idx)) as [[p label] Hs]; [lia|].
  exists p, label. split; [done|].
  unfold __getitem__, Py.bind, Py.lift.
  rewrite py_index_nat, Hs by lia. simpl.
  by destruct (imread p).
Qed.

End Facts.

(** The two theorems on the toy file system. *)
Lemma labels_are_sorted_positions_witness :
  @ECOLDataset.init Toy.platform unit "/data" None tt = (Ok Toy.dataset, tt)
  ∧ @listdir Toy.platform (@abspath Toy.platform "/data") = Some ["pos"; "neg"]
  ∧ NoDup ["pos"; "neg"]
  ∧ ECOLDataset.dir_label_map Toy.dataset !! "pos" = Some 1
  ∧ Path.parent_name "/data/pos/c.png" = "pos".
Proof.
  assert (H1 : @ECOLDataset.init Toy.platform unit "/data" None tt
               = (Ok Toy.dataset, tt)) by (vm_compute; reflexivity).
  assert (H2 : @listdir Toy.platform (@abspath Toy.platform "/data")
               = Some ["pos"; "neg"]) by reflexivity.
  assert (H3 : NoDup ["pos"; "neg"]).
  { apply NoDup_cons. split; [|apply NoDup_singleton].
    intros Hin. apply list_elem_of_singleton in Hin. discriminate. }
  split; [exact H1|]. split; [exact H2|]. split; [exact H3|].
  destruct (labels_are_sorted_positions _ _ _ _ _ _ H1 H2 H3)
    as (_ & _ & Hmap & _).
  split; [by apply Hmap|reflexivity].
Defined.

Lemma getitem_positional_witness :
  @ECOLDataset.init Toy.platform unit "/data" None tt = (Ok Toy.dataset, tt)
  ∧ (0 ≤ 2 < Z.of_nat (ECOLDataset.__len__ Toy.dataset))%Z
  ∧ @ECOLDataset.__getitem__ Toy.platform unit Toy.dataset 2 tt
    = (Ok ("/data/pos/c.png", 1, "/data/pos/c.png"), tt).
Proof.
  assert (H1 : @ECOLDataset.init Toy.platform unit "/data" None tt
               = (Ok Toy.dataset, tt)) by (vm_compute; reflexivity).
  assert (H2 : (0 ≤ 2 < Z.of_nat (ECOLDataset.__len__ Toy.dataset))%Z)
    by (simpl; lia).
  split; [exact H1|]. split; [exact H2|].
  destruct (getitem_positional _ _ _ _ _ 2%Z tt H1 H2)
    as (_ & p & label & Hs & Hg).
  injection Hs as <- <-. exact Hg.
Defined.

(** Position 1 of the dataset built on the toy file system is in range,
    and the file stored there cannot be decoded: [__getitem__(1)]
    raises instead of returning. *)
Lemma getitem_in_range_raises :
  @ECOLDataset.init Toy.platform unit "/data" None tt = (Ok Toy.dataset, tt)
  ∧ (0 ≤ 1 < Z.of_nat (ECOLDataset.__len__ Toy.dataset))%Z
  ∧ ECOLDataset.samples Toy.dataset !! 1 = Some ("/data/neg/b.png", 0)
  ∧ @imread Toy.platform "/data/neg/b.png" = None
  ∧ @ECOLDataset.__getitem__ Toy.platform unit Toy.dataset 1 tt
    = (Raise CvError, tt)
  ∧ ∀ r, @ECOLDataset.__getitem__ Toy.platform unit Toy.dataset 1 tt ≠ (Ok r, tt).
Proof.
  split; [vm_compute; reflexivity|]. split; [simpl; lia|].
  split; [reflexivity|]. split; [reflexivity|]. split; [reflexivity|].
  intros r. discriminate.
Qed.

End DatasetFacts.

(** ** UnNormalize *)

Module UnNormalizeFacts.
Import UnNormalize.

Lemma channel_roundtrip (m s : Qc) (c : list (list Qc)) :
  s ≠ 0%Qc → add_ m (mul_ s (div_ s (sub_ m c))) = c.
Proof.
  intros Hs. unfold add_, mul_, div_, sub_.
  rewrite <- !list_fmap_compose.
  rewrite <- (list_fmap_id c) at 2. apply list_fmap_ext. intros _ row _.
  unfold compose. rewrite <- !list_fmap_compose.
  rewrite <- (list_fmap_id row) at 2. apply list_fmap_ext. intros _ x _.
  simpl. field. exact Hs.
Qed.

Lemma unnormalize_normalize tensor mean std :
  Forall (λ s, s ≠ 0%Qc) (std_used tensor mean std) →
  unnormalize (normalize tensor mean std) mean std = tensor.
Proof.
  revert mean std. induction tensor as [|c tensor IH]; intros mean std Hstd.
  - done.
  - destruct mean as [|m mean]; [done|]. destruct std as [|s std]; [done|].
    unfold std_used in Hstd. simpl in Hstd.
    apply Forall_cons in Hstd as [Hs Hstd]. simpl.
    rewrite channel_roundtrip by done. f_equal. by apply IH.
Qed.

Lemma unnormalize_lookup tensor mean std c ch m s :
  tensor !! c = Some ch → mean !! c = Some m → std !! c = Some s →
  unnormalize tensor mean std !! c = Some (add_ m (mul_ s ch)).
Proof.
  revert tensor mean std.
  induction c as [|c IH]; intros [|ch0 tensor] [|m0 mean] [|s0 std]; try done.
  - by intros [= ->] [= ->] [= ->].
  - simpl. apply IH.
Qed.

Lemma unnormalize_lookup_uncovered tensor mean std c :
  mean !! c = None ∨ std !! c = None →
  unnormalize tensor mean std !! c = tensor !! c.
Proof.
  revert tensor mean std.
  induction c as [|c IH]; intros [|ch0 tensor] [|m0 mean] [|s0 std]; try done.
  - by intros [|].
  - simpl. apply IH.
Qed.

(** C6: [UnNormalize(mean, std)] multiplies channel [c] by [std[c]]
    and adds [mean[c]], leaves the channels that [mean] and [std] do
    not reach as they are, and undoes, over exact arithmetic and for
    the non-zero divisors the normalisation used, the normalisation
    [(x - mean[c]) / std[c]]. *)
Theorem unnormalize_inverts_normalize (self : t) tensor :
  Forall (λ s, s ≠ 0%Qc) (std_used tensor (mean self) (std self)) →
  (∀ c ch m s,
     tensor !! c = Some ch → mean self !! c = Some m → std self !! c = Some s →
     __call__ self tensor !! c
     = Some (fmap (M := list) (fmap (M := list) (λ x, x * s + m)%Qc) ch))
  ∧ (∀ c, mean self !! c = None ∨ std self !! c = None →
          __call__ self tensor !! c = tensor !! c)
  ∧ __call__ self (normalize tensor (mean self) (std self)) = tensor.
Proof.
  intros Hstd. unfold __call__. split; [|split].
  - intros c ch m s Hc Hm Hs.
    rewrite (unnormalize_lookup _ _ _ _ _ _ _ Hc Hm Hs).
    unfold add_, mul_. rewrite <- list_fmap_compose. f_equal.
    apply list_fmap_ext. intros _ row _. unfold compose.
    by rewrite <- list_fmap_compose.
  - apply unnormalize_lookup_uncovered.
  - by apply unnormalize_normalize.
Qed.

(** The theorem on a one-channel 1x2 image. *)
Lemma unnormalize_inverts_normalize_witness :
  let self := mk [Q2Qc (1 # 2)] [Q2Qc 2] in
  let tensor := [[[Q2Qc 1; Q2Qc 3]]] in
  Forall (λ s, s ≠ 0%Qc) (std_used tensor (mean self) (std self))
  ∧ __call__ self (normalize tensor (mean self) (std self)) = tensor.
Proof.
  intros self tensor.
  assert (H1 : Forall (λ s, s ≠ 0%Qc) (std_used tensor (mean self) (std self))).
  { repeat constructor. intros E. apply (f_equal this) in E. discriminate E. }
  split; [exact H1|].
  exact (proj2 (proj2 (unnormalize_inverts_normalize self tensor H1))).
Defined.

End UnNormalizeFacts.

(** ** The train/validation split *)

Module LoaderFacts.
Section Facts.
Context `{Floats} `{Platform}.
Import Loader.

Lemma slice_to_from {A} (l : list A) k : slice_to l k ++ slice_from l k = l.
Proof. apply take_drop. Qed.

Lemma slice_bound_nat len k :
  (0 ≤ k ≤ Z.of_nat len)%Z → slice_bound len k = Z.to_nat k.
Proof.
  intros Hk. unfold slice_bound.
  destruct (k <? 0)%Z eqn:E; [apply Z.ltb_lt in E; lia|lia].
Qed.

Lemma slice_to_NoDup {A} (l : list A) k : NoDup l → NoDup (slice_to l k).
Proof. intros Hl. apply (sublist_NoDup _ l); [done|apply sublist_take]. Qed.

(** Lines 209-214: the draw, or the prefix, of the candidate indices. *)
Lemma last_stage_inv (shuffle : bool) (idx : list nat) (size : Z) g sel g' :
  NoDup idx →
  (if shuffle then Random.choice idx size
   else Py.ret (slice_to idx size)) g = (Ok sel, g') →
  NoDup sel
  ∧ (shuffle = true ∨ (0 ≤ size ≤ Z.of_nat (length idx))%Z →
     Z.of_nat (length sel) = size).
Proof.
  intros Hnd. destruct shuffle.
  - intros E. apply RandomFacts.choice_ok_inv in E as (Hsize & Hlen & _ & Hnd').
    split; [by apply Hnd'|]. intros _. lia.
  - intros [= <- <-]. split; [by apply slice_to_NoDup|].
    intros [|Hsize]; [done|].
    unfold slice_to. rewrite length_take, slice_bound_nat by done. lia.
Qed.

Lemma select_indices_ok_inv d shuffle balance dataset_size g sel size g' :
  select_indices d shuffle balance dataset_size g = (Ok (sel, size), g') →
  NoDup sel
  ∧ (shuffle = true
     ∨ (0 ≤ size)%Z ∧ (balance = true ∨ (size ≤ Z.of_nat (ECOLDataset.len d))%Z) →
     Z.of_nat (length sel) = size).
Proof.
  unfold select_indices. intros E.
  apply PyFacts.bind_inv_ok in E as ([idx size1] & g1 & E1 & E2).
  apply PyFacts.bind_inv_ok in E2 as (sel1 & g2 & E2 & E3).
  injection E3 as <- <- <-.
  assert (Hidx : NoDup idx
                 ∧ (balance = true → (size1 ≤ Z.of_nat (length idx))%Z)
                 ∧ (balance = false → length idx = ECOLDataset.len d)).
  { destruct balance.
    - apply PyFacts.bind_inv_ok in E1 as (idx0 & g0 & E0 & E1).
      pose proof (BalanceFacts.get_balanced_indices_NoDup _ _ _ _ E0) as Hnd.
      case_decide; injection E1 as <- <- <-; (split; [done|split; [lia|done]]).
    - injection E1 as <- <- <-.
      split; [apply NoDup_seq|]. split; [done|]. intros _. apply length_seq. }
  destruct Hidx as (Hnd & Hbal & Hnobal).
  destruct (last_stage_inv _ _ _ _ _ _ Hnd E2) as [Hsel Hlen].
  split; [done|]. intros [Hs|[Hpos Hcase]]; apply Hlen; [by left|right].
  destruct balance.
  - specialize (Hbal eq_refl). lia.
  - destruct Hcase as [|Hle]; [done|]. rewrite (Hnobal eq_refl). lia.
Qed.

(** C5, as the code has it: in every call that returns, the
    validation sampler receives the slice [selected[:k]] and the
    training sampler the slice [selected[k:]] of the selected index
    sequence, where [k = floor(test_size * dataset_size)]; the two
    are a prefix and the matching suffix, so they are disjoint and
    together make the sequence up.
    The sequence has [dataset_size] elements when [shuffle] is set,
    and without [shuffle] when [dataset_size] is not negative and
    either [balance] is set or [dataset_size] does not exceed the
    number of samples.  When it has, and the split index
    [floor(test_size * dataset_size)] lies between 0 and
    [dataset_size], the validation sampler gets exactly the first
    [floor(test_size * dataset_size)] indices and the training
    sampler the remaining [dataset_size - floor(test_size *
    dataset_size)]. *)
Theorem split_of_selected_indices dir img_size bs num_workers shuffle balance
    tr dataset_size test_size g train val g' :
  load_dataset_ECOL_labeled dir img_size bs num_workers shuffle balance
    tr dataset_size test_size g = (Ok (train, val), g') →
  ∃ d sel size k,
    ECOLDataset.init dir (Some (default (default_transform img_size) tr)) g
    = (Ok d, g)
    ∧ select_indices d shuffle balance dataset_size g = (Ok (sel, size), g')
    ∧ floor_mul test_size size = Some k
    ∧ dataset train = d ∧ dataset val = d
    ∧ NoDup sel
    ∧ indices (sampler val) = slice_to sel k
    ∧ indices (sampler train) = slice_from sel k
    ∧ indices (sampler val) ++ indices (sampler train) = sel
    ∧ (∀ i, i ∈ indices (sampler val) → i ∉ indices (sampler train))
    ∧ (shuffle = true
       ∨ (0 ≤ size)%Z ∧ (balance = true ∨ (size ≤ Z.of_nat (ECOLDataset.len d))%Z) →
       Z.of_nat (length sel) = size)
    ∧ (Z.of_nat (length sel) = size → (0 ≤ k ≤ size)%Z →
       indices (sampler val) = take (Z.to_nat k) sel
       ∧ indices (sampler train) = drop (Z.to_nat k) sel
       ∧ Z.of_nat (length (indices (sampler val))) = k
       ∧ Z.of_nat (length (indices (sampler train))) = (size - k)%Z).
Proof.
  unfold load_dataset_ECOL_labeled. intros E.
  apply PyFacts.bind_inv_ok in E as (d & g1 & Ed & E).
  pose proof (DatasetFacts.init_ok_inv _ _ _ _ _ Ed) as [-> _].
  apply PyFacts.bind_inv_ok in E as ([sel size] & g2 & Es & E).
  unfold split_loaders, Py.bind, Py.lift in E.
  destruct (floor_mul test_size size) as [k|] eqn:Ek; [|done].
  simpl in E. injection E as <- <- <-.
  destruct (select_indices_ok_inv _ _ _ _ _ _ _ _ Es) as [Hnd Hlen].
  exists d, sel, size, k. simpl.
  split; [done|]. split; [done|]. split; [done|]. split; [done|]. split; [done|].
  split; [done|]. split; [done|]. split; [done|].
  split; [apply slice_to_from|]. split; [|split; [done|]].
  - intros i Hv Ht.
    pose proof (slice_to_from sel k) as Hcat. rewrite <- Hcat in Hnd.
    apply NoDup_app in Hnd as (_ & Hdisj & _). by apply (Hdisj i).
  - intros Hl Hk. unfold slice_to, slice_from.
    rewrite slice_bound_nat by lia.
    split; [done|]. split; [done|].
    rewrite length_take, length_drop. lia.
Qed.

End Facts.

(** The theorem on the toy file system: one positive and one negative
    sample are selected and shuffled, and half of them is held out. *)
Lemma split_of_selected_indices_witness :
  ∃ train val g',
    @Loader.load_dataset_ECOL_labeled Exact.floats Toy.platform
      "/data" 224 1 0 true true None None (Finite (1 # 2)) Toy.zeros
    = (Ok (train, val), g')
    ∧ ∀ i, i ∈ Loader.indices (Loader.sampler val)
           → i ∉ Loader.indices (Loader.sampler train).
Proof.
  destruct (@Loader.load_dataset_ECOL_labeled Exact.floats Toy.platform
              "/data" 224 1 0 true true None None (Finite (1 # 2)) Toy.zeros)
    as [[[train val]|e] g'] eqn:E; [|by vm_compute in E].
  exists train, val, g'. split; [reflexivity|].
  destruct (split_of_selected_indices _ _ _ _ _ _ _ _ _ _ _ _ _ E)
    as (d & sel & size & k & _ & _ & _ & _ & _ & _ & _ & _ & _ & Hdisj & _).
  exact Hdisj.
Defined.

(** A call with [test_size = 1.5] on the three samples of the toy file
    system, without shuffling or balancing: the split index is 4, the
    validation sampler gets all three indices and the training sampler
    none. *)
Lemma split_index_beyond_selection :
  ∃ train val g',
    @Loader.load_dataset_ECOL_labeled Exact.floats Toy.platform
      "/data" 224 1 0 false false None None (Finite (3 # 2)) Toy.zeros
    = (Ok (train, val), g')
    ∧ @floor_mul Exact.floats (Finite (3 # 2)) 3 = Some 4%Z
    ∧ Loader.indices (Loader.sampler val) = [0; 1; 2]
    ∧ Loader.indices (Loader.sampler train) = []
    ∧ Z.of_nat (length (Loader.indices (Loader.sampler val))) ≠ 4%Z
    ∧ Z.of_nat (length (Loader.indices (Loader.sampler train))) ≠ (3 - 4)%Z.
Proof.
  eexists _, _, _. split; [vm_compute; reflexivity|].
  repeat split; try reflexivity; simpl; lia.
Qed.

End LoaderFacts.

(** ** MetricTracker: calls that return, calls that raise, and the
    history of a tracker *)

Module TrackerMore.
Section Facts.
Context `{Floats}.
Import MetricTracker TrackerFacts.

Lemma for_each_app_ok {S A} (xs ys : list A) (body : A → Py.M S unit) s s' :
  Py.for_each xs body s = (Ok tt, s') →
  Py.for_each (xs ++ ys) body s = Py.for_each ys body s'.
Proof.
  revert s. induction xs as [|x xs IH]; intros s; simpl.
  - by intros [= ->].
  - intros E. apply PyFacts.bind_inv_ok in E as ([] & s1 & E1 & E2).
    rewrite (PyFacts.bind_ok _ _ _ _ _ E1). by apply IH.
Qed.

Lemma for_each_ext {S A} (xs : list A) (b1 b2 : A → Py.M S unit) s :
  (∀ x s, x ∈ xs → b1 x s = b2 x s) →
  Py.for_each xs b1 s = Py.for_each xs b2 s.
Proof.
  revert s. induction xs as [|x xs IH]; intros s Hb; simpl; [done|].
  unfold Py.bind. rewrite (Hb x s) by (by left).
  destruct (b2 x s) as [[[]|e] s1]; [|done].
  apply IH. intros y s2 Hy. apply Hb. by right.
Qed.

(** The state the loop starts from has the dicts of the state the call
    was made on. *)
Lemma loss_setters_has_keys s x y n :
  has_keys s → has_keys (set_avg_loss x (set_total_loss y (set_batches_cnt n s))).
Proof. intros Hk k Hin. exact (Hk k Hin). Qed.

(** The only exception the loop of [update] raises on a tracker that
    has its keys is [IndexError]. *)
Lemma for_each_raise_inv preds labels paths ixs s e s' :
  has_keys s →
  Py.for_each ixs
    (update_sample (sigmoid <$> preds) (gt_half <$> (sigmoid <$> preds)) labels paths) s
  = (Raise e, s') →
  e = IndexError.
Proof.
  revert s. induction ixs as [|i ixs IH]; intros s Hk; simpl; [done|].
  unfold Py.bind.
  destruct (update_sample_outcomes preds labels paths i s Hk)
    as [->|[[row ->]|(p & l & xs & _ & _ & ->)]].
  - by intros [= <- _].
  - apply IH. by apply record_has_keys.
  - by intros [= <- _].
Qed.

(** X1: on a tracker that has its four keys, [update] returns exactly
    when there is a prediction, and a path when paths are given, for
    every label; and when it raises, the exception is [IndexError]. *)
Theorem update_returns_iff s loss preds labels paths :
  has_keys s →
  ((∃ s', update loss preds labels paths s = (Ok tt, s'))
   ↔ length labels ≤ length preds
     ∧ ∀ xs, paths = Some xs → length labels ≤ length xs)
  ∧ ∀ e s', update loss preds labels paths s = (Raise e, s') → e = IndexError.
Proof.
  intros Hk. split; [split|].
  - intros [s' E]. by apply (do_call_ok_inv (Call loss preds labels paths) s s').
  - intros [Hp Hx].
    destruct (update_returns s loss preds labels paths Hk Hp Hx) as (s0 & E & _).
    eauto.
  - intros e s' E.
    change (do_call (Call loss preds labels paths) s = (Raise e, s')) in E.
    rewrite do_call_unfold in E. simpl in E.
    eapply for_each_raise_inv; [|exact E]. by apply loss_setters_has_keys.
Qed.

Lemma rows_lookup_2 preds labels paths i p l :
  preds !! i = Some p → labels !! i = Some l →
  match paths with
  | None => True
  | Some xs => is_Some (xs !! i)
  end →
  rows preds labels paths !! i = Some (p, l, paths ≫= (.!! i)).
Proof.
  intros Ep El Hx. unfold rows.
  assert (Ez : zip preds labels !! i = Some (p, l)).
  { apply lookup_zip_with_Some. eauto. }
  destruct paths as [xs|]; simpl.
  - destruct Hx as [x Ex]. rewrite Ex. simpl.
    apply lookup_zip_with_Some. exists (p, l), x. eauto.
  - by rewrite list_lookup_fmap, Ez.
Qed.

Lemma update_sample_labels_ext ps_sig ps_bin labels1 labels2 paths i s :
  labels1 !! i = labels2 !! i →
  update_sample ps_sig ps_bin labels1 paths i s
  = update_sample ps_sig ps_bin labels2 paths i s.
Proof. intros E. unfold update_sample. by rewrite E. Qed.

(** An iteration whose path is missing records the count and the
    confidence of its sample, then raises. *)
Lemma update_sample_missing_path preds labels xs i s p l :
  has_keys s →
  preds !! i = Some p → labels !! i = Some l → xs !! i = None →
  update_sample (sigmoid <$> preds) (gt_half <$> (sigmoid <$> preds))
    labels (Some xs) i s
  = (Raise IndexError, record s (p, l, None)).
Proof.
  intros Hk Ep El Ex.
  destruct (Hk _ (curr_key_in_keys (gt_half (sigmoid p)) l))
    as ([c Hc] & [a Ha] & [pl Hpl]).
  unfold update_sample, record, row_key, row_conf; simpl.
  unfold Py.bind, Py.lift, Py.get, Py.modify, Py.ret; simpl.
  rewrite !list_lookup_fmap, Ep, El; simpl. rewrite Hc; simpl.
  rewrite Ha; simpl. rewrite Hpl, Ex; simpl.
  rewrite (insert_alter _ _ (λ c, c + 1) _ Hc).
  by rewrite (insert_alter _ _ (λ a, a ++ [float_of (sigmoid p)]) _ Ha).
Qed.

(** X2: a call given fewer paths than labels (and enough predictions)
    raises [IndexError] part-way: it leaves the tracker as the call on
    the first [len(paths)] samples would, and with the count and the
    confidence of the next sample recorded under its key, but not its
    path, so that this count is one ahead of the path list. *)
Theorem short_paths_partial_update s loss preds labels xs :
  has_keys s →
  length xs < length labels →
  length labels ≤ length preds →
  ∃ s_m p l s',
    update loss preds (take (length xs) labels) (Some xs) s = (Ok tt, s_m)
    ∧ preds !! length xs = Some p
    ∧ labels !! length xs = Some l
    ∧ update loss preds labels (Some xs) s = (Raise IndexError, s')
    ∧ let k := curr_key (gt_half (sigmoid p)) l in
      confusion_cnt s' = alter (λ c, c + 1) k (confusion_cnt s_m)
      ∧ confusion_arrays s'
        = alter (λ a, a ++ [float_of (sigmoid p)]) k (confusion_arrays s_m)
      ∧ confusion_paths s' = confusion_paths s_m
      ∧ batches_cnt s' = batches_cnt s_m
      ∧ total_loss s' = total_loss s_m
      ∧ avg_loss s' = avg_loss s_m.
Proof.
  intros Hk Hm Hp. set (m := length xs) in *.
  assert (Hlt : length (take m labels) = m) by (rewrite length_take; lia).
  destruct (update_returns s loss preds (take m labels) (Some xs) Hk)
    as (s0 & Em & _ & _ & _ & Ec & Ea & Epl).
  { lia. }
  { intros ? [= <-]. fold m. lia. }
  set (rs := rows preds (take m labels) (Some xs)) in *.
  assert (Hrs : length rs = m).
  { unfold rs. rewrite rows_length; [done|lia|]. intros ? [= <-]. fold m. lia. }
  destruct (lookup_lt_is_Some_2 preds m) as [p Ep]; [lia|].
  destruct (lookup_lt_is_Some_2 labels m) as [l El]; [lia|].
  exists (foldl record s0 rs), p, l, (record (foldl record s0 rs) (p, l, None)).
  assert (Hk0 : has_keys s0).
  { intros k Hin. rewrite Ec, Ea, Epl. by apply Hk. }
  split; [exact Em|]. split; [done|]. split; [done|]. split.
  - change (do_call (Call loss preds labels (Some xs)) s = (Raise IndexError,
              record (foldl record s0 rs) (p, l, None))).
    change (do_call (Call loss preds (take m labels) (Some xs)) s
            = (Ok tt, foldl record s0 rs)) in Em.
    rewrite do_call_unfold in *. simpl in *. rewrite Hlt in Em.
    replace (length labels) with (m + S (length labels - S m)) by lia.
    rewrite seq_app.
    erewrite for_each_app_ok; last first.
    { rewrite <- Em. apply for_each_ext. intros i s1 Hi.
      apply elem_of_seq in Hi. apply update_sample_labels_ext.
      by rewrite lookup_take_lt by lia. }
    simpl. apply PyFacts.bind_raise.
    apply update_sample_missing_path; try done.
    + by apply foldl_record_has_keys.
    + by apply lookup_ge_None.
  - intros k. rewrite record_cnt, record_arrays, record_paths.
    by repeat split.
Qed.




(** X4: predictions beyond the last label are never read: a call is the
    same computation as the call on the first [len(labels)]
    predictions. *)
Theorem surplus_predictions_ignored loss preds labels paths s :
  update loss preds labels paths s
  = update loss (take (length labels) preds) labels paths s.
Proof.
  change (do_call (Call loss preds labels paths) s
          = do_call (Call loss (take (length labels) preds) labels paths) s).
  rewrite !do_call_unfold. simpl.
  apply for_each_ext. intros i s1 Hi. apply elem_of_seq in Hi.
  unfold update_sample.
  by rewrite !fmap_take, !lookup_take_lt by lia.
Qed.

(** *** The history of a tracker *)

Lemma visited_snoc cs c :
  visited (cs ++ [c]) = visited cs ++ rows (c_preds c) (c_labels c) (c_paths c).
Proof. unfold visited. rewrite fmap_app, concat_app. simpl. by rewrite app_nil_r. Qed.

(** The dicts of a reachable state hold, key by key, the samples
    visited so far, in the order of the visits. *)
Lemma reachable_dicts cs s :
  reachable cs s →
  ∀ k, k ∈ keys →
    confusion_cnt s !! k = Some (length (bucket k (visited cs)))
    ∧ confusion_arrays s !! k
      = Some ((float_of ∘ row_conf) <$> bucket k (visited cs))
    ∧ confusion_paths s !! k = Some (omap snd (bucket k (visited cs))).
Proof.
  induction 1 as [|cs s c s' Hr IH Hc]; intros k Hk.
  - key_cases Hk; done.
  - destruct (do_call_ok_inv _ _ _ Hc) as [Hp Hx].
    destruct (update_returns s (c_loss c) _ _ _ (reachable_has_keys _ _ Hr) Hp Hx)
      as (s0 & Hu & _ & _ & _ & Ec & Ea & Epl).
    unfold do_call in Hc. rewrite Hu in Hc. injection Hc as <-.
    destruct (IH k Hk) as (IHc & IHa & IHp).
    rewrite foldl_record_cnt, foldl_record_arrays, foldl_record_paths.
    rewrite Ec, Ea, Epl, IHc, IHa, IHp, visited_snoc. simpl.
    unfold bucket. rewrite filter_app, length_app, fmap_app, omap_app. done.
Qed.

(** X5: the three dicts do not remember how the samples were batched:
    two trackers that were given, by calls that returned, the same
    samples in the same order agree under each of the four keys on the
    count, the array of confidences and the list of paths. *)
Theorem batching_leaves_no_trace cs1 s1 cs2 s2 :
  reachable cs1 s1 →
  reachable cs2 s2 →
  visited cs1 = visited cs2 →
  ∀ k, k ∈ keys →
    confusion_cnt s1 !! k = confusion_cnt s2 !! k
    ∧ confusion_arrays s1 !! k = confusion_arrays s2 !! k
    ∧ confusion_paths s1 !! k = confusion_paths s2 !! k.
Proof.
  intros H1 H2 Hv k Hk.
  destruct (reachable_dicts cs1 s1 H1 k Hk) as (-> & -> & ->).
  destruct (reachable_dicts cs2 s2 H2 k Hk) as (-> & -> & ->).
  by rewrite Hv.
Qed.

Lemma reachable_count_of cs s k :
  reachable cs s → k ∈ keys → count_of s k = length (bucket k (visited cs)).
Proof.
  intros Hr Hk. unfold count_of.
  by destruct (reachable_dicts cs s Hr k Hk) as (-> & _).
Qed.

Lemma getters_eq cs s :
  reachable cs s →
  get_precision s
  = (if decide (count_of s "tp" + count_of s "fp" = 0) then Raise ZeroDivisionError
     else Ok (int_truediv (count_of s "tp") (count_of s "tp" + count_of s "fp")))
  ∧ get_recall s
    = (if decide (count_of s "tp" + count_of s "fn" = 0) then Raise ZeroDivisionError
       else Ok (int_truediv (count_of s "tp") (count_of s "tp" + count_of s "fn")))
  ∧ get_accuracy s
    = Ok (int_fmul 100
            (np_true_divide (count_of s "tp" + count_of s "tn")
               (count_of s "tp" + count_of s "tn" + count_of s "fp"
                + count_of s "fn"))).
Proof.
  intros Hr. pose proof (reachable_counts cs s Hr) as E.
  set (tp := count_of s "tp") in *. set (tn := count_of s "tn") in *.
  set (fp := count_of s "fp") in *. set (fn := count_of s "fn") in *.
  unfold get_precision, get_recall, get_accuracy, confusion_cnt_sum, getitem.
  rewrite E, map_fold_four.
  by destruct (four_lookup tp tn fp fn) as (-> & -> & -> & ->).
Qed.

Lemma bucket_empty_iff k (rs : list row) :
  length (bucket k rs) = 0 ↔ Forall (λ r, row_key r ≠ k) rs.
Proof.
  unfold bucket. induction rs as [|r rs IH]; [done|].
  rewrite filter_cons, Forall_cons. case_decide; simpl.
  - split; [done|]. by intros [? _].
  - rewrite IH. split; [done|]. by intros [_ ?].
Qed.

(** X6: on binary labels the two ratios are undefined exactly when their
    populations are empty: [get_precision] raises [ZeroDivisionError]
    exactly when no sample visited so far was predicted positive, and
    [get_recall] exactly when none was labelled 1. *)
Theorem precision_recall_raise_iff cs s :
  reachable cs s →
  Forall (λ r : row, r.1.2 = 0 ∨ r.1.2 = 1)%Z (visited cs) →
  (get_precision s = Raise ZeroDivisionError
   ↔ Forall (λ r, gt_half (row_conf r) = false) (visited cs))
  ∧ (get_recall s = Raise ZeroDivisionError
     ↔ Forall (λ r : row, r.1.2 = 0%Z) (visited cs)).
Proof.
  intros Hr Hbin.
  destruct (getters_eq cs s Hr) as (-> & -> & _).
  rewrite !(reachable_count_of cs s) by (done || (apply list_elem_of_In; simpl; tauto)).
  set (V := visited cs) in *.
  assert (Hsplit : ∀ k1 k2 (P : row → Prop),
    (∀ r, r ∈ V → (row_key r ≠ k1 ∧ row_key r ≠ k2) ↔ P r) →
    (if decide (length (bucket k1 V) + length (bucket k2 V) = 0)
     then Raise ZeroDivisionError
     else Ok (int_truediv (length (bucket k1 V))
                (length (bucket k1 V) + length (bucket k2 V))))
    = Raise ZeroDivisionError ↔ Forall P V).
  { intros k1 k2 P HP. rewrite Forall_forall.
    case_decide as Hz.
    - split; [|done]. intros _ r Hin. apply HP; [done|].
      assert (H1 : length (bucket k1 V) = 0) by lia.
      assert (H2 : length (bucket k2 V) = 0) by lia.
      apply bucket_empty_iff in H1, H2. rewrite Forall_forall in H1, H2. eauto.
    - split; [done|]. intros HV. exfalso. apply Hz.
      assert (H1 : length (bucket k1 V) = 0).
      { apply bucket_empty_iff, Forall_forall. intros r Hin.
        by apply (HP r Hin), HV. }
      assert (H2 : length (bucket k2 V) = 0).
      { apply bucket_empty_iff, Forall_forall. intros r Hin.
        by apply (HP r Hin), HV. }
      lia. }
  rewrite Forall_forall in Hbin.
  split; apply Hsplit; intros r Hin; specialize (Hbin r Hin);
    unfold row_key, curr_key;
    destruct (gt_half (row_conf r)), Hbin as [-> | ->]; simpl;
    (split; [intros [? ?]|intros ?]); done.
Qed.

Lemma correct_count (rs : list row) :
  length (filter (λ r, row_key r = "tp" ∨ row_key r = "tn") rs)
  = length (bucket "tp" rs) + length (bucket "tn" rs).
Proof.
  unfold bucket. induction rs as [|r rs IH]; [done|].
  rewrite !filter_cons.
  destruct (decide (row_key r = "tp")) as [E|E].
  - rewrite !decide_True by (by left || done).
    rewrite decide_False by (by rewrite E). simpl. lia.
  - destruct (decide (row_key r = "tn")) as [E'|E'].
    + rewrite decide_True by (by right). simpl. lia.
    + rewrite decide_False by (by intros [|]). simpl. lia.
Qed.

(** X7: on a reachable state [get_accuracy] returns 100 times numpy's
    quotient of the number of samples visited so far whose key is [tp]
    or [tn] by the number of all samples visited so far; it divides by
    0 exactly when no sample was visited. *)
Theorem accuracy_over_visited cs s :
  reachable cs s →
  get_accuracy s
  = Ok (int_fmul 100
          (np_true_divide
             (length (filter (λ r, row_key r = "tp" ∨ row_key r = "tn") (visited cs)))
             (length (visited cs)))).
Proof.
  intros Hr. destruct (getters_eq cs s Hr) as (_ & _ & ->).
  rewrite !(reachable_count_of cs s) by (done || (apply list_elem_of_In; simpl; tauto)).
  by rewrite correct_count, bucket_partition.
Qed.

(** *** What a call never does *)

Lemma extends_refl s : extends s s.
Proof.
  intros k. repeat split.
  - intros c ->. exists 0. f_equal. lia.
  - intros a ->. exists []. by rewrite app_nil_r.
  - intros pl ->. exists []. by rewrite app_nil_r.
Qed.

Lemma extends_trans s1 s2 s3 : extends s1 s2 → extends s2 s3 → extends s1 s3.
Proof.
  intros H12 H23 k.
  destruct (H12 k) as (Hc & Ha & Hp), (H23 k) as (Hc' & Ha' & Hp').
  repeat split.
  - intros c E. destruct (Hc c E) as [n E']. destruct (Hc' _ E') as [n' E''].
    exists (n + n'). rewrite E''. f_equal. lia.
  - intros a E. destruct (Ha a E) as [b E']. destruct (Ha' _ E') as [b' E''].
    exists (b ++ b'). by rewrite E'', app_assoc.
  - intros a E. destruct (Hp a E) as [b E']. destruct (Hp' _ E') as [b' E''].
    exists (b ++ b'). by rewrite E'', app_assoc.
Qed.

Lemma record_extends s r : extends s (record s r).
Proof.
  intros k. rewrite record_cnt, record_arrays, record_paths. repeat split.
  - intros c E. rewrite lookup_alter. case_decide as Hr; [subst k|]; rewrite E; simpl.
    + by exists 1.
    + exists 0. f_equal. lia.
  - intros a E. rewrite lookup_alter. case_decide as Hr; [subst k|]; rewrite E; simpl.
    + by eexists.
    + exists []. by rewrite app_nil_r.
  - intros pl E. destruct (r.2) as [x|].
    + rewrite lookup_alter. case_decide as Hr; [subst k|]; rewrite E; simpl.
      * by eexists.
      * exists []. by rewrite app_nil_r.
    + exists []. by rewrite app_nil_r.
Qed.

Lemma for_each_extends preds labels paths ixs s :
  has_keys s →
  let s' := (Py.for_each ixs
               (update_sample (sigmoid <$> preds) (gt_half <$> (sigmoid <$> preds))
                  labels paths) s).2 in
  has_keys s' ∧ extends s s'.
Proof.
  revert s. induction ixs as [|i ixs IH]; intros s Hk; simpl.
  { split; [done|apply extends_refl]. }
  unfold Py.bind.
  destruct (update_sample_outcomes preds labels paths i s Hk)
    as [->|[[row ->]|(p & l & xs & _ & _ & ->)]]; simpl.
  - split; [done|apply extends_refl].
  - destruct (IH (record s row)) as [Hk' He]; [by apply record_has_keys|].
    split; [done|]. eapply extends_trans; [apply record_extends|done].
  - split; [by apply record_has_keys|apply record_extends].
Qed.

(** X8: no sequence of calls, returning or raising, removes anything
    from a tracker: the four keys stay, no count goes down, and every
    array of confidences and every list of paths only grows at its
    end. *)
Theorem run_never_forgets cs s :
  has_keys s → has_keys (run cs s) ∧ extends s (run cs s).
Proof.
  intros Hk. induction cs as [|c cs [IHk IHe]] using rev_ind.
  - split; [done|apply extends_refl].
  - rewrite run_snoc, do_call_unfold.
    match goal with
    | |- context [Py.for_each ?ixs (update_sample _ _ ?l ?p) ?s0] =>
        destruct (for_each_extends (c_preds c) l p ixs s0) as [Hk' He]
    end.
    { by apply loss_setters_has_keys. }
    split; [done|]. eapply extends_trans; [exact IHe|].
    eapply extends_trans; [|exact He].
    intros k. repeat split; intros ? E; simpl.
    + exists 0. rewrite E. f_equal. lia.
    + exists []. by rewrite app_nil_r.
    + exists []. by rewrite app_nil_r.
Qed.

End Facts.

Lemma update_returns_iff_witness :
  @MetricTracker.has_keys Exact.floats MetricTracker.init
  ∧ ∀ e s', @MetricTracker.update Exact.floats 0%Q [] [1%Z] None MetricTracker.init
            = (Raise e, s') → e = IndexError.
Proof.
  assert (H1 : @MetricTracker.has_keys Exact.floats MetricTracker.init)
    by apply TrackerFacts.init_has_keys.
  split; [exact H1|].
  exact (proj2 (@update_returns_iff Exact.floats MetricTracker.init 0%Q [] [1%Z] None H1)).
Defined.


Lemma short_paths_partial_update_witness :
  @MetricTracker.has_keys Exact.floats MetricTracker.init
  ∧ length ["a.png"] < length [1%Z; 0%Z]
  ∧ length [1%Z; 0%Z] ≤ length [2%Q; (-2)%Q]
  ∧ ∃ s',
      @MetricTracker.update Exact.floats 0%Q [2; -2]%Q [1; 0]%Z (Some ["a.png"])
        MetricTracker.init = (Raise IndexError, s').
Proof.
  assert (H1 : @MetricTracker.has_keys Exact.floats MetricTracker.init)
    by apply TrackerFacts.init_has_keys.
  assert (H2 : length ["a.png"] < length [1%Z; 0%Z]) by (simpl; lia).
  assert (H3 : length [1%Z; 0%Z] ≤ length [2%Q; (-2)%Q]) by (simpl; lia).
  split; [exact H1|]. split; [exact H2|]. split; [exact H3|].
  destruct (@short_paths_partial_update Exact.floats MetricTracker.init 0%Q
              [2; -2]%Q [1; 0]%Z ["a.png"] H1 H2 H3)
    as (s_m & p & l & s' & _ & _ & _ & E & _).
  by exists s'.
Defined.


Lemma batching_leaves_no_trace_witness :
  let F := Exact.floats in
  let c := MetricTracker.Call 0%Q [2; -2]%Q [1; 0]%Z (Some ["a.png"; "b.png"]) in
  let c1 := MetricTracker.Call 1%Q [2%Q] [1%Z] (Some ["a.png"]) in
  let c2 := MetricTracker.Call 0%Q [(-2)%Q] [0%Z] (Some ["b.png"]) in
  let s := (MetricTracker.do_call c MetricTracker.init).2 in
  let s1 := (MetricTracker.do_call c1 MetricTracker.init).2 in
  let s2 := (MetricTracker.do_call c2 s1).2 in
  MetricTracker.reachable [c] s
  ∧ MetricTracker.reachable ([c1] ++ [c2]) s2
  ∧ MetricTracker.visited [c] = MetricTracker.visited ([c1] ++ [c2])
  ∧ "tp" ∈ MetricTracker.keys
  ∧ MetricTracker.confusion_paths s !! "tp" = MetricTracker.confusion_paths s2 !! "tp".
Proof.
  intros F c c1 c2 s s1 s2.
  assert (Hr : MetricTracker.reachable [c] s).
  { apply (MetricTracker.reachable_update [] MetricTracker.init c s).
    - constructor.
    - vm_compute. reflexivity. }
  assert (Hr1 : MetricTracker.reachable [c1] s1).
  { apply (MetricTracker.reachable_update [] MetricTracker.init c1 s1).
    - constructor.
    - vm_compute. reflexivity. }
  assert (Hr2 : MetricTracker.reachable ([c1] ++ [c2]) s2).
  { apply (MetricTracker.reachable_update [c1] s1 c2 s2).
    - exact Hr1.
    - vm_compute. reflexivity. }
  assert (Hv : MetricTracker.visited [c] = MetricTracker.visited ([c1] ++ [c2]))
    by reflexivity.
  assert (Hk : "tp" ∈ MetricTracker.keys) by (apply list_elem_of_In; simpl; tauto).
  split; [exact Hr|]. split; [exact Hr2|]. split; [exact Hv|]. split; [exact Hk|].
  exact (proj2 (proj2 (batching_leaves_no_trace [c] s ([c1] ++ [c2]) s2 Hr Hr2 Hv "tp" Hk))).
Defined.

Lemma precision_recall_raise_iff_witness :
  let F := Exact.floats in
  let c := MetricTracker.Call 0%Q [(-2)%Q] [0%Z] None in
  let s := (MetricTracker.do_call c MetricTracker.init).2 in
  MetricTracker.reachable [c] s
  ∧ Forall (λ r : MetricTracker.row, r.1.2 = 0 ∨ r.1.2 = 1)%Z (MetricTracker.visited [c])
  ∧ MetricTracker.get_precision s = Raise ZeroDivisionError
  ∧ MetricTracker.get_recall s = Raise ZeroDivisionError.
Proof.
  intros F c s.
  assert (Hr : MetricTracker.reachable [c] s).
  { apply (MetricTracker.reachable_update [] MetricTracker.init c s).
    - constructor.
    - vm_compute. reflexivity. }
  assert (Hb : Forall (λ r : MetricTracker.row, r.1.2 = 0 ∨ r.1.2 = 1)%Z
                 (MetricTracker.visited [c])).
  { repeat constructor. }
  split; [exact Hr|]. split; [exact Hb|].
  destruct (precision_recall_raise_iff [c] s Hr Hb) as [Hp Hrec].
  split.
  - apply Hp. repeat constructor.
  - apply Hrec. repeat constructor.
Defined.

Lemma accuracy_over_visited_witness :
  let F := Exact.floats in
  let c := MetricTracker.Call 0%Q [2; 2]%Q [1; 0]%Z None in
  let s := (MetricTracker.do_call c MetricTracker.init).2 in
  MetricTracker.reachable [c] s
  ∧ MetricTracker.get_accuracy s = Ok (Finite 50).
Proof.
  intros F c s.
  assert (Hr : MetricTracker.reachable [c] s).
  { apply (MetricTracker.reachable_update [] MetricTracker.init c s).
    - constructor.
    - vm_compute. reflexivity. }
  split; [exact Hr|].
  rewrite (accuracy_over_visited [c] s Hr). vm_compute. reflexivity.
Defined.

Lemma run_never_forgets_witness :
  let F := Exact.floats in
  let c := MetricTracker.Call 0%Q [2%Q] [1; 0]%Z None in
  MetricTracker.has_keys MetricTracker.init
  ∧ MetricTracker.has_keys (MetricTracker.run [c] MetricTracker.init).
Proof.
  intros F c.
  assert (H1 : MetricTracker.has_keys MetricTracker.init)
    by apply TrackerFacts.init_has_keys.
  split; [exact H1|].
  exact (proj1 (run_never_forgets [c] MetricTracker.init H1)).
Defined.
End TrackerMore.

(** ** Lists *)

Module ListFacts.

Lemma filter_Forall_all {A} (P : A → Prop) `{∀ x, Decision (P x)} (l : list A) :
  Forall P l → filter P l = l.
Proof.
  induction 1 as [|x l Hx _ IH]; [done|]. by rewrite filter_cons_True, IH.
Qed.

Lemma filter_Forall_none {A} (P : A → Prop) `{∀ x, Decision (P x)} (l : list A) :
  Forall (λ x, ¬ P x) l → filter P l = [].
Proof.
  induction 1 as [|x l Hx _ IH]; [done|]. by rewrite filter_cons_False.
Qed.

End ListFacts.

(** ** ECOLDataset: the constructor as a comprehension *)

Module DatasetMore.
Section Facts.
Context `{Platform}.
Import ECOLDataset DatasetFacts.

Lemma collect_dir_eq {St} m subdir subdir_path names acc (st : St) label :
  m !! subdir = Some label →
  collect_dir m subdir subdir_path names acc st
  = (Ok (acc ++ ((λ img_name, (Path.join subdir_path img_name, label)) <$> names)), st).
Proof.
  intros Hm. revert acc. induction names as [|n names IH]; intros acc; simpl.
  - by rewrite app_nil_r.
  - unfold Py.bind, Py.lift. rewrite Hm. simpl. rewrite IH. by rewrite <- app_assoc.
Qed.

(** When the map sends the sub-directories to consecutive numbers, the
    two loops compute the comprehension. *)
Lemma collect_eq {St} root m ds acc (st : St) j :
  (∀ i subdir, ds !! i = Some subdir → m !! subdir = Some (j + i)) →
  collect root m ds acc st
  = (match samples_from root j ds with
     | Some more => Ok (acc ++ more)
     | None => Raise OSError
     end, st).
Proof.
  revert acc j. induction ds as [|sd ds IH]; intros acc j Hm; simpl.
  - by rewrite app_nil_r.
  - unfold Py.bind at 1. unfold Py.lift.
    destruct (listdir (Path.join root sd)) as [names|]; [|done]. simpl.
    unfold Py.bind. rewrite (collect_dir_eq _ _ _ _ _ _ j).
    2: { specialize (Hm 0 sd eq_refl). by rewrite Nat.add_0_r in Hm. }
    rewrite (IH _ (S j)).
    2: { intros i sd' Hi. rewrite (Hm (S i) sd' Hi). f_equal. lia. }
    destruct (samples_from root (S j) ds); simpl; [by rewrite app_assoc|done].
Qed.

Lemma label_map_positions listing i subdir :
  NoDup listing →
  sort listing !! i = Some subdir → label_map (sort listing) !! subdir = Some (0 + i).
Proof.
  intros Hnd Hi. apply label_map_lookup; [|done].
  by rewrite StrOrder.sort_Permutation.
Qed.

(** X10: [__init__] is the comprehension it spells out with two loops
    and a dict: on a root whose entries are distinct, the samples are
    the entries of the sorted sub-directories in the order they are
    listed, each with the position of its sub-directory as label; the
    dict lookup never raises [KeyError], and the call raises, with
    [OSError], exactly when some entry of the root cannot be listed. *)
Theorem init_as_comprehension {St} dir tr (st : St) listing :
  listdir (abspath dir) = Some listing →
  NoDup listing →
  init dir tr st
  = (match samples_from (abspath dir) 0 (sort listing) with
     | Some smps =>
         Ok {| root_dir := abspath dir;
               subdirs := sort listing;
               dir_label_map := label_map (sort listing);
               samples := smps;
               len := length smps;
               transform := default to_tensor tr |}
     | None => Raise OSError
     end, st).
Proof.
  intros Hl Hnd. unfold init, Py.bind, Py.lift. rewrite Hl. simpl.
  rewrite (collect_eq _ _ _ _ _ 0).
  - by destruct (samples_from (abspath dir) 0 (sort listing)).
  - intros i sd. by apply label_map_positions.
Qed.

(** The samples of a constructed dataset, read back from its fields. *)
Lemma init_samples_from {St} dir tr (st st' : St) d listing :
  init dir tr st = (Ok d, st') →
  listdir (abspath dir) = Some listing →
  NoDup listing →
  root_dir d = abspath dir
  ∧ subdirs d = sort listing
  ∧ samples_from (root_dir d) 0 (subdirs d) = Some (samples d).
Proof.
  intros Hinit Hl Hnd. unfold init, Py.bind, Py.lift in Hinit.
  rewrite Hl in Hinit. simpl in Hinit.
  rewrite (collect_eq _ _ _ _ _ 0) in Hinit by (intros i sd; by apply label_map_positions).
  destruct (samples_from (abspath dir) 0 (sort listing)) as [smps|] eqn:E; [|done].
  injection Hinit as <- <-. simpl. by rewrite E.
Qed.

(** Every name of a list is a key of its label map. *)
Lemma label_map_is_Some l name : name ∈ l → is_Some (label_map l !! name).
Proof.
  induction l as [|x l IH] using rev_ind; [by intros ?%elem_of_nil|].
  rewrite label_map_snoc, lookup_insert. intros Hin.
  case_decide; [done|]. apply IH.
  apply elem_of_app in Hin as [|Hx]; [done|].
  apply list_elem_of_singleton in Hx. congruence.
Qed.

Lemma collect_dir_returns {St} m subdir subdir_path names acc (st : St) :
  is_Some (m !! subdir) →
  ∃ r, collect_dir m subdir subdir_path names acc st = (Ok r, st).
Proof. intros [label Hm]. eexists. by apply collect_dir_eq. Qed.

Lemma collect_outcomes {St} root m ds acc (st : St) :
  (∀ sd, sd ∈ ds → is_Some (m !! sd)) →
  (Forall (λ sd, is_Some (listdir (Path.join root sd))) ds
   ∧ ∃ r, collect root m ds acc st = (Ok r, st))
  ∨ (¬ Forall (λ sd, is_Some (listdir (Path.join root sd))) ds
     ∧ collect root m ds acc st = (Raise OSError, st)).
Proof.
  revert acc. induction ds as [|sd ds IH]; intros acc Hm.
  - left. split; [constructor|]. by eexists.
  - assert (Hm' : ∀ sd', sd' ∈ ds → is_Some (m !! sd')).
    { intros sd' Hsd. apply Hm. by right. }
    destruct (listdir (Path.join root sd)) as [names|] eqn:En.
    + destruct (collect_dir_returns m sd (Path.join root sd) names acc st) as [acc' Ed].
      { apply Hm. by left. }
      assert (E : collect root m (sd :: ds) acc st = collect root m ds acc' st).
      { simpl. unfold Py.bind, Py.lift. rewrite En. simpl. by rewrite Ed. }
      rewrite E. destruct (IH acc' Hm') as [[HF [r Er]]|[HF Er]].
      * left. split; [|by exists r]. constructor; [by rewrite En|done].
      * right. split; [|done]. intros HF'. apply HF.
        by apply Forall_cons in HF' as [_ ?].
    + right. split.
      * intros HF. apply Forall_cons in HF as [[? HF] _]. by rewrite En in HF.
      * simpl. unfold Py.bind, Py.lift. by rewrite En.
Qed.

(** X11: whatever the root holds, [__init__] either returns or raises
    [OSError], and leaves the state of the caller as it was; it returns
    exactly when the root can be listed and so can every one of its
    entries: a plain file beside the class directories makes the
    constructor fail. *)
Theorem init_returns_iff {St} dir tr (st : St) :
  let listable :=
    ∃ listing,
      listdir (abspath dir) = Some listing
      ∧ Forall (λ sd, is_Some (listdir (Path.join (abspath dir) sd))) listing in
  ((∃ d, init dir tr st = (Ok d, st)) ↔ listable)
  ∧ (init dir tr st = (Raise OSError, st) ↔ ¬ listable)
  ∧ ((∃ d, init dir tr st = (Ok d, st)) ∨ init dir tr st = (Raise OSError, st)).
Proof.
  intros listable. unfold listable, init, Py.bind, Py.lift.
  destruct (listdir (abspath dir)) as [listing|] eqn:El; simpl.
  - destruct (collect_outcomes (abspath dir) (label_map (sort listing)) (sort listing) [] st)
      as [[HF [r Er]]|[HF Er]].
    { intros sd Hsd. by apply label_map_is_Some. }
    + rewrite StrOrder.sort_Permutation in HF. rewrite Er.
      split; [|split].
      * split; [intros _; by exists listing|intros _; by eexists].
      * split; [done|]. intros Hn. exfalso. apply Hn. by exists listing.
      * left. by eexists.
    + rewrite StrOrder.sort_Permutation in HF. rewrite Er.
      split; [|split].
      * split; [by intros [? ?]|]. intros (l & [= <-] & HF'). done.
      * split; [|done]. intros _ (l & [= <-] & HF'). done.
      * by right.
  - split; [|split].
    + split; [by intros [? ?]|by intros (? & ? & _)].
    + split; [|done]. by intros _ (? & ? & _).
    + by right.
Qed.

Lemma samples_from_spec root j ds smps :
  samples_from root j ds = Some smps →
  (∀ smp : sample, smp ∈ smps → j ≤ smp.2 < j + length ds)
  ∧ StronglySorted (λ a b : sample, a.2 ≤ b.2) smps
  ∧ (∀ i subdir names,
       ds !! i = Some subdir →
       listdir (Path.join root subdir) = Some names →
       length (filter (λ smp : sample, smp.2 = j + i) smps) = length names).
Proof.
  revert j smps. induction ds as [|sd ds IH]; intros j smps; simpl.
  - intros [= <-]. split; [by intros ? ?%elem_of_nil|]. split; [constructor|done].
  - destruct (listdir (Path.join root sd)) as [names|] eqn:En; [|done]. simpl.
    destruct (samples_from root (S j) ds) as [more|] eqn:Em; [|done]. simpl.
    intros [= <-]. destruct (IH (S j) more Em) as (Hrange & Hsorted & Hcount).
    set (f := λ img_name : string, (Path.join (Path.join root sd) img_name, j)).
    assert (Hfirst : Forall (λ smp : sample, smp.2 = j) (f <$> names)).
    { apply Forall_fmap, Forall_forall. by intros n _. }
    split; [|split].
    + intros smp Hin. apply elem_of_app in Hin as [Hin|Hin].
      * rewrite Forall_forall in Hfirst. rewrite (Hfirst smp Hin). lia.
      * specialize (Hrange smp Hin). lia.
    + apply StronglySorted_app_2; [| |done].
      * intros a b Ha Hb. rewrite Forall_forall in Hfirst.
        rewrite (Hfirst a Ha). specialize (Hrange b Hb). lia.
      * clear -names. induction names as [|n names IHn]; [constructor|].
        simpl. constructor; [done|]. apply Forall_fmap, Forall_forall. intros n' _. simpl. lia.
    + intros i subdir names' Hi Hn. rewrite filter_app, length_app.
      destruct i as [|i]; simpl in Hi.
      * injection Hi as <-. rewrite En in Hn. injection Hn as <-.
        rewrite Nat.add_0_r.
        rewrite (ListFacts.filter_Forall_all _ _ Hfirst).
        rewrite ListFacts.filter_Forall_none, length_fmap; [simpl; lia|].
        apply Forall_forall. intros smp Hin. specialize (Hrange smp Hin). lia.
      * rewrite ListFacts.filter_Forall_none; simpl.
        -- rewrite <- (Hcount i subdir names' Hi Hn). do 2 f_equal.
           apply list_filter_iff. intros smp. lia.
        -- eapply Forall_impl; [exact Hfirst|]. intros smp Hs. simpl in Hs. lia.
Qed.

(** X12: the samples of a constructed dataset are grouped by class, in
    the order of the labels: the labels never decrease along the list,
    each is smaller than the number of entries of the root, and label
    [i] is carried by exactly as many samples as the [i]-th
    sub-directory has entries. *)
Theorem samples_grouped_by_label {St} dir tr (st st' : St) d listing :
  init dir tr st = (Ok d, st') →
  listdir (abspath dir) = Some listing →
  NoDup listing →
  StronglySorted (λ a b : sample, a.2 ≤ b.2) (samples d)
  ∧ (∀ smp : sample, smp ∈ samples d → smp.2 < length listing)
  ∧ (∀ i subdir names,
       subdirs d !! i = Some subdir →
       listdir (Path.join (root_dir d) subdir) = Some names →
       length (filter (λ smp : sample, smp.2 = i) (samples d)) = length names).
Proof.
  intros Hinit Hl Hnd.
  destruct (init_samples_from _ _ _ _ _ _ Hinit Hl Hnd) as (_ & Hsub & Hs).
  destruct (samples_from_spec _ _ _ _ Hs) as (Hrange & Hsorted & Hcount).
  split; [done|]. split.
  - intros smp Hin. specialize (Hrange smp Hin).
    rewrite Hsub, StrOrder.sort_Permutation in Hrange. lia.
  - intros i subdir names Hi Hn. by rewrite <- (Hcount i subdir names Hi Hn).
Qed.

End Facts.

Lemma toy_listing_NoDup : NoDup ["pos"; "neg"].
Proof.
  apply NoDup_cons. split; [|apply NoDup_singleton].
  intros Hin. apply list_elem_of_singleton in Hin. discriminate.
Qed.

Lemma toy_init :
  @ECOLDataset.init Toy.platform unit "/data" None tt = (Ok Toy.dataset, tt).
Proof. vm_compute. reflexivity. Qed.

Lemma init_as_comprehension_witness :
  @listdir Toy.platform (@abspath Toy.platform "/data") = Some ["pos"; "neg"]
  ∧ NoDup ["pos"; "neg"]
  ∧ @ECOLDataset.init Toy.platform unit "/data" None tt = (Ok Toy.dataset, tt).
Proof.
  assert (H1 : @listdir Toy.platform (@abspath Toy.platform "/data")
               = Some ["pos"; "neg"]) by reflexivity.
  assert (H2 : NoDup ["pos"; "neg"]) by exact toy_listing_NoDup.
  split; [exact H1|]. split; [exact H2|].
  rewrite (@init_as_comprehension Toy.platform unit "/data" None tt _ H1 H2).
  vm_compute. reflexivity.
Defined.

Lemma samples_grouped_by_label_witness :
  @ECOLDataset.init Toy.platform unit "/data" None tt = (Ok Toy.dataset, tt)
  ∧ @listdir Toy.platform (@abspath Toy.platform "/data") = Some ["pos"; "neg"]
  ∧ NoDup ["pos"; "neg"]
  ∧ length (filter (λ smp : ECOLDataset.sample, smp.2 = 0)
              (ECOLDataset.samples Toy.dataset)) = 2.
Proof.
  assert (H1 : @ECOLDataset.init Toy.platform unit "/data" None tt
               = (Ok Toy.dataset, tt)) by exact toy_init.
  assert (H2 : @listdir Toy.platform (@abspath Toy.platform "/data")
               = Some ["pos"; "neg"]) by reflexivity.
  assert (H3 : NoDup ["pos"; "neg"]) by exact toy_listing_NoDup.
  split; [exact H1|]. split; [exact H2|]. split; [exact H3|].
  destruct (samples_grouped_by_label _ _ _ _ _ _ H1 H2 H3) as (_ & _ & Hcount).
  exact (Hcount 0 "neg" ["a.png"; "b.png"] eq_refl eq_refl).
Defined.
End DatasetMore.

(** ** The random generator: a full draw *)

Module RandomMore.
Import Random.

(** Drawing as many elements as the array holds rearranges it. *)
Lemma choice_all {A} (a : list A) g r g' :
  choice a (Z.of_nat (length a)) g = (Ok r, g') → r ≡ₚ a.
Proof.
  intros E.
  destruct (RandomFacts.choice_spec a (Z.of_nat (length a)) g)
    as (idx & r0 & g0 & E0 & Hnd & Hlen & HF); [lia|].
  rewrite E0 in E. injection E as <- <-.
  rewrite Nat2Z.id in Hlen.
  pose proof (Forall2_length _ _ _ HF) as Hlr.
  apply Permutation_inj. split; [lia|].
  exists (λ i, default i (idx !! i)). split.
  - intros i j Hij.
    destruct (idx !! i) as [x|] eqn:Ei, (idx !! j) as [y|] eqn:Ej; simpl in Hij.
    + subst y. by apply (NoDup_lookup idx i j x).
    + subst j. apply lookup_ge_None in Ej.
      destruct (Forall2_lookup_l _ _ _ _ _ HF Ei) as (z & _ & Hz).
      apply lookup_lt_Some in Hz. lia.
    + subst i. apply lookup_ge_None in Ei.
      destruct (Forall2_lookup_l _ _ _ _ _ HF Ej) as (z & _ & Hz).
      apply lookup_lt_Some in Hz. lia.
    + done.
  - intros i. destruct (idx !! i) as [x|] eqn:Ei; simpl.
    + destruct (Forall2_lookup_l _ _ _ _ _ HF Ei) as (z & -> & Hz). by rewrite Hz.
    + apply lookup_ge_None in Ei.
      rewrite (proj2 (lookup_ge_None r0 i)) by lia.
      symmetry. apply lookup_ge_None. lia.
Qed.

End RandomMore.

(** ** Class balancing: the two outcomes *)

Module BalanceMore.
Section Facts.
Context `{Platform}.
Import ECOLDataset BalanceFacts.

Lemma label_at_Some smps i l :
  label_at smps i = Some l → ∃ smp : sample, smps !! i = Some smp ∧ smp.2 = l.
Proof.
  unfold label_at. destruct (smps !! i) as [smp|]; [|done].
  intros [= <-]. by exists smp.
Qed.

Lemma balanced_valid d chosen i :
  chosen ⊆ negative_indices d →
  i ∈ positive_indices d ++ chosen →
  label_at (samples d) i = Some 1 ∨ label_at (samples d) i = Some 0.
Proof.
  intros Hsub Hi. apply elem_of_app in Hi as [Hi|Hi].
  - left. by apply elem_of_positive_indices.
  - right. by apply elem_of_negative_indices, Hsub.
Qed.

(** X13: whatever the generator draws, [get_balanced_indices] has one
    of two outcomes.  With at most as many label-1 as label-0 samples
    it returns pairwise distinct subscripts of the sample list, twice
    as many as there are label-1 samples, and none of a sample whose
    label is neither 0 nor 1: the samples of a third class are left
    out.  With more label-1 samples it raises [ValueError] before any
    number is drawn. *)
Theorem get_balanced_indices_outcomes d g :
  (length (positive_indices d) ≤ length (negative_indices d)
   ∧ ∃ r g',
       get_balanced_indices d g = (Ok r, g')
       ∧ NoDup r
       ∧ length r = 2 * length (positive_indices d)
       ∧ ∀ i, i ∈ r → ∃ smp : sample, samples d !! i = Some smp ∧ smp.2 ≤ 1)
  ∨ (length (negative_indices d) < length (positive_indices d)
     ∧ get_balanced_indices d g = (Raise ValueError, g)).
Proof.
  destruct (decide (length (positive_indices d) ≤ length (negative_indices d)))
    as [Hle|Hgt].
  - left. split; [done|].
    destruct (get_balanced_indices_returns d g Hle) as (r & g' & E).
    exists r, g'. split; [done|].
    split; [by apply (get_balanced_indices_NoDup d g r g')|].
    destruct (get_balanced_indices_ok_inv d g r g' E)
      as (chosen & -> & _ & Hlen & _ & Hsub).
    split; [rewrite length_app; lia|].
    intros i Hi.
    destruct (balanced_valid d chosen i Hsub Hi) as [Hl|Hl];
      apply label_at_Some in Hl as (smp & Hs & Hl); exists smp; (split; [done|lia]).
  - right. split; [lia|]. unfold get_balanced_indices.
    apply PyFacts.bind_raise, RandomFacts.choice_too_many. lia.
Qed.

End Facts.
End BalanceMore.

(** ** [check_balancing] and the loaders *)

Module LoaderMore.
Section Facts.
Context `{Floats} `{Platform}.
Import ECOLDataset Loader.

(** *** [check_balancing] *)

Lemma for_each_add_label smps inds acc :
  Forall (λ i, i < length smps) inds →
  Py.for_each inds (add_label smps) acc
  = (Ok tt, acc + sum_list (omap (label_at smps) inds)).
Proof.
  revert acc. induction inds as [|i inds IH]; intros acc HF; simpl.
  - by rewrite Nat.add_0_r.
  - apply Forall_cons in HF as [Hi HF].
    destruct (lookup_lt_is_Some_2 smps i Hi) as [smp Hs].
    assert (Hl : label_at smps i = Some smp.2) by (unfold label_at; by rewrite Hs).
    unfold Py.bind, add_label at 1, Py.lift. rewrite Hl. simpl.
    rewrite IH by done. f_equal.
    change (list_omap nat nat (label_at smps) inds) with (omap (label_at smps) inds).
    lia.
Qed.

Lemma for_each_add_label_raises smps inds acc :
  ¬ Forall (λ i, i < length smps) inds →
  ∃ cnt, Py.for_each inds (add_label smps) acc = (Raise IndexError, cnt).
Proof.
  revert acc. induction inds as [|i inds IH]; intros acc HF; simpl.
  - destruct HF. constructor.
  - unfold Py.bind, add_label at 1, Py.lift.
    destruct (label_at smps i) as [l|] eqn:Hl; simpl.
    + apply IH. intros HF'. apply HF. constructor; [|done].
      apply BalanceMore.label_at_Some in Hl as (smp & Hs & _).
      by apply lookup_lt_Some in Hs.
    + by eexists.
Qed.

Lemma check_balancing_valid dl :
  Forall (λ i, i < length (samples (dataset dl))) (indices (sampler dl)) →
  check_balancing dl
  = if decide (indices (sampler dl) = []) then Raise ZeroDivisionError
    else Ok (int_fmul 100
               (int_truediv
                  (sum_list (omap (label_at (samples (dataset dl))) (indices (sampler dl))))
                  (length (indices (sampler dl))))).
Proof.
  intros HF. unfold check_balancing. rewrite for_each_add_label by done.
  destruct (indices (sampler dl)) as [|i inds]; [done|].
  rewrite decide_False by done. by rewrite decide_False by done.
Qed.

(** X14: [check_balancing] in closed form.  A subscript outside the
    sample list raises [IndexError]; otherwise an empty sampler makes
    the division raise [ZeroDivisionError], and a non-empty one yields
    100 times the sum of the labels at the sampler's subscripts over
    their number. *)
Theorem check_balancing_spec dl :
  check_balancing dl
  = if decide (Forall (λ i, i < length (samples (dataset dl))) (indices (sampler dl)))
    then
      if decide (indices (sampler dl) = []) then Raise ZeroDivisionError
      else Ok (int_fmul 100
                 (int_truediv
                    (sum_list (omap (label_at (samples (dataset dl)))
                                 (indices (sampler dl))))
                    (length (indices (sampler dl)))))
    else Raise IndexError.
Proof.
  case_decide as HF.
  - by apply check_balancing_valid.
  - unfold check_balancing.
    by destruct (for_each_add_label_raises _ _ 0 HF) as [cnt ->].
Qed.

Lemma sum_binary_labels smps inds :
  Forall (λ i, label_at smps i = Some 0 ∨ label_at smps i = Some 1) inds →
  sum_list (omap (label_at smps) inds)
  = length (filter (λ i, label_at smps i = Some 1) inds).
Proof.
  induction 1 as [|i inds Hi _ IH]; [done|].
  rewrite filter_cons. simpl. destruct Hi as [Hi|Hi]; rewrite Hi; simpl.
  - exact IH.
  - f_equal. exact IH.
Qed.

Lemma binary_labels_valid smps inds :
  Forall (λ i, label_at smps i = Some 0 ∨ label_at smps i = Some 1) inds →
  Forall (λ i, i < length smps) inds.
Proof.
  intros HF. eapply Forall_impl; [exact HF|].
  intros i [Hi|Hi];
    apply BalanceMore.label_at_Some in Hi as (smp & Hs & _);
    by apply lookup_lt_Some in Hs.
Qed.

(** X15: over samples labelled 0 or 1 the number [check_balancing]
    reports is 100 times the share of label-1 samples among the
    sampler's subscripts. *)
Theorem check_balancing_binary dl :
  indices (sampler dl) ≠ [] →
  Forall (λ i, label_at (samples (dataset dl)) i = Some 0
               ∨ label_at (samples (dataset dl)) i = Some 1) (indices (sampler dl)) →
  check_balancing dl
  = Ok (int_fmul 100
          (int_truediv
             (length (filter (λ i, label_at (samples (dataset dl)) i = Some 1)
                        (indices (sampler dl))))
             (length (indices (sampler dl))))).
Proof.
  intros Hne Hbin.
  rewrite check_balancing_valid by (by apply binary_labels_valid).
  rewrite decide_False by done. by rewrite sum_binary_labels.
Qed.

(** X16: on the subscripts [get_balanced_indices] returns, when there
    are any, [check_balancing] reports 100 times the quotient of the
    number of label-1 samples by twice that number. *)
Theorem check_balancing_after_balancing d g r g' sh bs :
  get_balanced_indices d g = (Ok r, g') →
  r ≠ [] →
  check_balancing {| dataset := d; shuffle := sh; batch_size := bs;
                     sampler := {| indices := r |} |}
  = Ok (int_fmul 100
          (int_truediv (length (positive_indices d))
             (2 * length (positive_indices d)))).
Proof.
  intros E Hne.
  destruct (BalanceFacts.get_balanced_indices_ok_inv d g r g' E)
    as (chosen & -> & _ & Hlen & _ & Hsub).
  assert (Hbin : Forall (λ i, label_at (samples d) i = Some 0
                              ∨ label_at (samples d) i = Some 1)
                   (positive_indices d ++ chosen)).
  { apply Forall_forall. intros i Hi.
    destruct (BalanceMore.balanced_valid d chosen i Hsub Hi); [by right|by left]. }
  rewrite check_balancing_valid by (by apply binary_labels_valid). simpl.
  rewrite decide_False by done.
  rewrite sum_binary_labels by done.
  rewrite BalanceFacts.filter_positive_app, length_app.
  - do 3 f_equal. lia.
  - apply Forall_forall. intros i. apply BalanceFacts.elem_of_positive_indices.
  - apply Forall_forall. intros i Hi.
    by apply BalanceFacts.elem_of_negative_indices, Hsub.
Qed.


(** *** [load_dataset_ECOL_labeled] *)

(** The call, once the dataset is built. *)
Lemma load_eq dir img_size bs nw shuffle balance tr dataset_size test_size g d :
  ECOLDataset.init dir (Some (default (default_transform img_size) tr)) g
  = (Ok d, g) →
  load_dataset_ECOL_labeled dir img_size bs nw shuffle balance tr dataset_size
    test_size g
  = Py.bind (select_indices d shuffle balance dataset_size)
      (λ '(dataset_indices, dataset_size),
         split_loaders d bs test_size dataset_indices dataset_size) g.
Proof.
  intros Ed. unfold load_dataset_ECOL_labeled.
  by rewrite (PyFacts.bind_ok _ _ _ _ _ Ed).
Qed.

(** What a call that returns went through. *)
Lemma load_ok_inv dir img_size bs nw shuffle balance tr dataset_size test_size
    g train val g' :
  load_dataset_ECOL_labeled dir img_size bs nw shuffle balance tr dataset_size
    test_size g = (Ok (train, val), g') →
  ∃ d sel size k,
    ECOLDataset.init dir (Some (default (default_transform img_size) tr)) g
    = (Ok d, g)
    ∧ len d = length (samples d)
    ∧ select_indices d shuffle balance dataset_size g = (Ok (sel, size), g')
    ∧ floor_mul test_size size = Some k
    ∧ train = {| dataset := d; shuffle := false; batch_size := bs;
                 sampler := {| indices := slice_from sel k |} |}
    ∧ val = {| dataset := d; shuffle := false; batch_size := bs;
               sampler := {| indices := slice_to sel k |} |}.
Proof.
  unfold load_dataset_ECOL_labeled. intros E.
  apply PyFacts.bind_inv_ok in E as (d & g1 & Ed & E).
  pose proof (DatasetFacts.init_ok_inv _ _ _ _ _ Ed)
    as (-> & _ & _ & _ & _ & _ & Hlen & _).
  apply PyFacts.bind_inv_ok in E as ([sel size] & g2 & Es & E).
  unfold split_loaders, Py.bind, Py.lift in E.
  destruct (floor_mul test_size size) as [k|] eqn:Ek; [|done].
  simpl in E. injection E as <- <- <-.
  by exists d, sel, size, k.
Qed.

(** Lines 197-214 without [balance] and without [shuffle]. *)
Lemma select_indices_plain d dataset_size g :
  select_indices d false false dataset_size g
  = (Ok (slice_to (seq 0 (len d)) (default (Z.of_nat (len d)) dataset_size),
         default (Z.of_nat (len d)) dataset_size), g).
Proof. reflexivity. Qed.

Lemma slice_bound_le n k : slice_bound n k ≤ n.
Proof.
  unfold slice_bound. destruct (k <? 0)%Z eqn:E; [apply Z.ltb_lt in E; lia|lia].
Qed.

Lemma slice_to_seq n k : slice_to (seq 0 n) k = seq 0 (slice_bound n k).
Proof.
  unfold slice_to. rewrite length_seq, take_seq. f_equal.
  pose proof (slice_bound_le n k). lia.
Qed.

Lemma slice_from_seq n k :
  slice_from (seq 0 n) k = seq (slice_bound n k) (n - slice_bound n k).
Proof. unfold slice_from. by rewrite length_seq, drop_seq. Qed.


(** The subscripts selected are subscripts of the sample list. *)
Lemma select_indices_valid d shuffle balance dataset_size g sel size g' :
  len d = length (samples d) →
  select_indices d shuffle balance dataset_size g = (Ok (sel, size), g') →
  Forall (λ i, i < length (samples d)) sel.
Proof.
  intros Hlen E. unfold select_indices in E.
  apply PyFacts.bind_inv_ok in E as ([idx size1] & g1 & E1 & E2).
  apply PyFacts.bind_inv_ok in E2 as (sel1 & g2 & E2 & E3).
  injection E3 as <- <- <-.
  assert (Hidx : Forall (λ i, i < length (samples d)) idx).
  { destruct balance.
    - apply PyFacts.bind_inv_ok in E1 as (idx0 & g0 & E0 & E1).
      assert (idx = idx0) as -> by (case_decide; by injection E1).
      destruct (BalanceFacts.get_balanced_indices_ok_inv _ _ _ _ E0)
        as (chosen & -> & _ & _ & _ & Hsub).
      apply Forall_forall. intros i Hi.
      destruct (BalanceMore.balanced_valid d chosen i Hsub Hi) as [Hl|Hl];
        apply BalanceMore.label_at_Some in Hl as (smp & Hs & _);
        by apply lookup_lt_Some in Hs.
    - injection E1 as <- <- <-. unfold __len__. rewrite Hlen.
      apply Forall_seq. intros j Hj. lia. }
  rewrite Forall_forall in Hidx. apply Forall_forall. intros i Hi. apply Hidx.
  destruct shuffle.
  - apply RandomFacts.choice_ok_inv in E2 as (_ & _ & Hsub & _). by apply Hsub.
  - injection E2 as <- <-. by apply (subseteq_take _ _ _ Hi).
Qed.

(** X17: the samplers of the two loaders hold subscripts of the sample
    list of the dataset both loaders share, so reading the dataset at
    them never raises [IndexError], neither in [__getitem__] nor in
    [check_balancing]. *)
Theorem sampler_indices_within_dataset dir img_size bs nw shuffle balance tr
    dataset_size test_size g train val g' :
  load_dataset_ECOL_labeled dir img_size bs nw shuffle balance tr dataset_size
    test_size g = (Ok (train, val), g') →
  dataset val = dataset train
  ∧ (∀ i, i ∈ indices (sampler train) ++ indices (sampler val) →
       i < length (samples (dataset train))
       ∧ ∀ s : Random.bitgen,
           __getitem__ (dataset train) (Z.of_nat i) s ≠ (Raise IndexError, s))
  ∧ check_balancing train ≠ Raise IndexError
  ∧ check_balancing val ≠ Raise IndexError.
Proof.
  intros E.
  apply load_ok_inv in E as (d & sel & size & k & _ & Hlen & Es & _ & -> & ->).
  pose proof (select_indices_valid _ _ _ _ _ _ _ _ Hlen Es) as Hv. simpl.
  assert (Hfrom : Forall (λ i, i < length (samples d)) (slice_from sel k)).
  { rewrite Forall_forall in Hv. apply Forall_forall. intros i Hi.
    by apply Hv, (subseteq_drop _ _ _ Hi). }
  assert (Hto : Forall (λ i, i < length (samples d)) (slice_to sel k)).
  { rewrite Forall_forall in Hv. apply Forall_forall. intros i Hi.
    by apply Hv, (subseteq_take _ _ _ Hi). }
  split; [done|]. split; [|split].
  - intros i Hi.
    assert (Hlt : i < length (samples d)).
    { rewrite Forall_forall in Hfrom, Hto.
      apply elem_of_app in Hi as [Hi|Hi]; [by apply Hfrom|by apply Hto]. }
    split; [done|]. intros s.
    destruct (lookup_lt_is_Some_2 (samples d) i Hlt) as [[p l] Hs].
    unfold __getitem__, Py.bind, Py.lift.
    rewrite DatasetFacts.py_index_nat, Nat2Z.id, Hs by lia. simpl.
    by destruct (imread p).
  - rewrite check_balancing_valid by done. simpl. by case_decide.
  - rewrite check_balancing_valid by done. simpl. by case_decide.
Qed.


Lemma StronglySorted_lookup {A} (R : relation A) l i j a b :
  StronglySorted R l → i < j → l !! i = Some a → l !! j = Some b → R a b.
Proof.
  intros Hl. revert i j. induction Hl as [|x l Hl IH Hx]; intros i j Hij Ha Hb.
  - done.
  - destruct j as [|j]; [lia|]. simpl in Hb. destruct i as [|i]; simpl in Ha.
    + injection Ha as <-. rewrite Forall_forall in Hx.
      apply Hx. apply list_elem_of_lookup. eauto.
    + apply (IH i j); [lia|done|done].
Qed.

(** X19: without [shuffle] and [balance] the split follows the
    directory order: every validation subscript is smaller than every
    training subscript, and so, the samples being grouped by class, no
    validation sample has a larger label than a training sample,
    whatever [dataset_size] and [test_size] are. *)
Theorem unshuffled_split_is_by_class dir img_size bs nw tr dataset_size test_size
    g train val g' listing :
  load_dataset_ECOL_labeled dir img_size bs nw false false tr dataset_size
    test_size g = (Ok (train, val), g') →
  listdir (abspath dir) = Some listing →
  NoDup listing →
  ∀ i j (a b : sample),
    i ∈ indices (sampler val) →
    j ∈ indices (sampler train) →
    samples (dataset train) !! i = Some a →
    samples (dataset train) !! j = Some b →
    i < j ∧ a.2 ≤ b.2.
Proof.
  intros E Hl Hnd.
  apply load_ok_inv in E as (d & sel & size & k & Ed & _ & Es & _ & -> & ->).
  rewrite select_indices_plain in Es. injection Es as <- <- <-. simpl.
  destruct (DatasetMore.init_samples_from _ _ _ _ _ _ Ed Hl Hnd) as (_ & _ & Hs).
  destruct (DatasetMore.samples_from_spec _ _ _ _ Hs) as (_ & Hsorted & _).
  intros i j a b Hi Hj Ha Hb.
  rewrite slice_to_seq in Hi, Hj. rewrite slice_to_seq in Hi. rewrite slice_from_seq in Hj.
  apply elem_of_seq in Hi, Hj.
  assert (Hij : i < j) by lia. split; [done|].
  by apply (StronglySorted_lookup _ _ i j a b Hsorted).
Qed.

(** X20: with [balance] and without [shuffle] the split is not
    stratified: the label-1 subscripts come first, so either the
    validation sampler holds label-1 samples only, or the training
    sampler holds label-0 samples only. *)
Theorem unshuffled_balanced_split_is_one_sided dir img_size bs nw tr dataset_size
    test_size g train val g' :
  load_dataset_ECOL_labeled dir img_size bs nw false true tr dataset_size
    test_size g = (Ok (train, val), g') →
  (∀ i, i ∈ indices (sampler val) →
     label_at (samples (dataset val)) i = Some 1)
  ∨ (∀ j, j ∈ indices (sampler train) →
       label_at (samples (dataset train)) j = Some 0).
Proof.
  intros E.
  apply load_ok_inv in E as (d & sel & size & k & _ & _ & Es & _ & -> & ->).
  simpl. unfold select_indices in Es.
  apply PyFacts.bind_inv_ok in Es as ([idx size1] & g1 & E1 & E2).
  apply PyFacts.bind_inv_ok in E1 as (r & g0 & E0 & E1).
  assert (idx = r) as -> by (case_decide; by injection E1).
  injection E2 as <- _ _.
  destruct (BalanceFacts.get_balanced_indices_ok_inv _ _ _ _ E0)
    as (chosen & -> & _ & _ & _ & Hsub).
  unfold slice_to, slice_from.
  set (pos := positive_indices d).
  set (a := slice_bound (length (pos ++ chosen)) size1).
  set (b := slice_bound (length (take a (pos ++ chosen))) k).
  destruct (decide (b ≤ length pos)) as [Hb|Hb].
  - left. intros i Hi. apply BalanceFacts.elem_of_positive_indices. fold pos.
    rewrite take_take in Hi.
    rewrite take_app_le in Hi by lia.
    by apply (subseteq_take _ _ _ Hi).
  - right. intros j Hj. apply BalanceFacts.elem_of_negative_indices, Hsub.
    apply list_elem_of_lookup in Hj as [n Hn]. rewrite lookup_drop in Hn.
    apply lookup_take_Some in Hn as [Hn _].
    rewrite lookup_app_r in Hn by lia.
    apply list_elem_of_lookup. eauto.
Qed.

(** Distinct subscripts of a list are at most as many as its elements. *)
Lemma NoDup_valid_length (idx : list nat) n :
  NoDup idx → Forall (λ i, i < n) idx → length idx ≤ n.
Proof.
  intros Hnd Hv.
  assert (Hsub : idx ⊆+ seq 0 n).
  { apply NoDup_submseteq; [done|]. intros i Hi. rewrite Forall_forall in Hv.
    apply elem_of_seq. specialize (Hv i Hi). lia. }
  apply submseteq_length in Hsub. by rewrite length_seq in Hsub.
Qed.

(** X21: with [balance] and [shuffle], and a [dataset_size] that is the
    default or at least twice the number of label-1 samples, the two
    samplers together hold a rearrangement of the balanced selection:
    every label-1 subscript and as many distinct label-0 subscripts,
    each once. *)
Theorem balanced_shuffled_split_covers_selection dir img_size bs nw tr
    dataset_size test_size g train val g' :
  load_dataset_ECOL_labeled dir img_size bs nw true true tr dataset_size
    test_size g = (Ok (train, val), g') →
  (∀ n, dataset_size = Some n →
        (Z.of_nat (2 * length (positive_indices (dataset train))) ≤ n)%Z) →
  ∃ chosen,
    indices (sampler val) ++ indices (sampler train)
    ≡ₚ positive_indices (dataset train) ++ chosen
    ∧ NoDup chosen
    ∧ length chosen = length (positive_indices (dataset train))
    ∧ ∀ i, i ∈ chosen → label_at (samples (dataset train)) i = Some 0.
Proof.
  intros E Hsize.
  apply load_ok_inv in E as (d & sel & size & k & _ & Hlen & Es & _ & -> & ->).
  simpl in *. rewrite LoaderFacts.slice_to_from.
  unfold select_indices in Es.
  apply PyFacts.bind_inv_ok in Es as ([idx size1] & g1 & E1 & E2).
  apply PyFacts.bind_inv_ok in E1 as (r & g0 & E0 & E1).
  apply PyFacts.bind_inv_ok in E2 as (sel1 & g2 & E2 & E3).
  injection E3 as <- _ _.
  pose proof (BalanceFacts.get_balanced_indices_NoDup _ _ _ _ E0) as Hnd.
  destruct (BalanceFacts.get_balanced_indices_ok_inv _ _ _ _ E0)
    as (chosen & -> & _ & Hlc & Hndc & Hsub).
  remember (positive_indices d ++ chosen) as r eqn:Er.
  assert (Hvalid : Forall (λ i, i < length (samples d)) r).
  { apply Forall_forall. intros i Hi. rewrite Er in Hi.
    destruct (BalanceMore.balanced_valid d chosen i Hsub Hi) as [Hl|Hl];
      apply BalanceMore.label_at_Some in Hl as (smp & Hs & _);
      by apply lookup_lt_Some in Hs. }
  pose proof (NoDup_valid_length r _ Hnd Hvalid) as Hle.
  assert (Hr : length r = 2 * length (positive_indices d)).
  { rewrite Er, length_app. lia. }
  assert (idx = r ∧ size1 = Z.of_nat (length r)) as [-> ->].
  { case_decide as Hlt; injection E1 as <- <- _; (split; [done|]).
    - done.
    - destruct dataset_size as [n|]; simpl in *.
      + specialize (Hsize n eq_refl). clear -Hlt Hsize Hr. lia.
      + unfold __len__ in *. rewrite Hlen in *. clear -Hlt Hle. lia. }
  exists chosen. rewrite <- Er.
  split; [by apply (RandomMore.choice_all r g1 sel1 g2)|].
  split; [done|]. split; [done|].
  intros i Hi. by apply BalanceFacts.elem_of_negative_indices, Hsub.
Qed.

(** X22: with [balance], a dataset that has more label-1 than label-0
    samples cannot be loaded: the call raises [ValueError] whatever
    the other arguments are, before any number is drawn. *)
Theorem unbalanceable_dataset_raises dir img_size bs nw shuffle tr dataset_size
    test_size g d :
  ECOLDataset.init dir (Some (default (default_transform img_size) tr)) g
  = (Ok d, g) →
  length (negative_indices d) < length (positive_indices d) →
  load_dataset_ECOL_labeled dir img_size bs nw shuffle true tr dataset_size
    test_size g = (Raise ValueError, g).
Proof.
  intros Ed Hlt. rewrite (load_eq _ _ _ _ _ _ _ _ _ _ _ Ed).
  apply PyFacts.bind_raise. unfold select_indices.
  apply PyFacts.bind_raise, PyFacts.bind_raise.
  unfold get_balanced_indices.
  apply PyFacts.bind_raise, RandomFacts.choice_too_many. lia.
Qed.


End Facts.


Lemma check_balancing_binary_witness :
  let dl := @Loader.Build_DataLoader Toy.platform Toy.dataset false 1
              (Loader.Build_SubsetRandomSampler [0; 2]) in
  Loader.indices (Loader.sampler dl) ≠ []
  ∧ Forall (λ i, ECOLDataset.label_at (ECOLDataset.samples (Loader.dataset dl)) i = Some 0
                 ∨ ECOLDataset.label_at (ECOLDataset.samples (Loader.dataset dl)) i = Some 1)
      (Loader.indices (Loader.sampler dl))
  ∧ @Loader.check_balancing Exact.floats Toy.platform dl = Ok (Finite 50).
Proof.
  intros dl.
  assert (H1 : Loader.indices (Loader.sampler dl) ≠ []) by discriminate.
  assert (H2 : Forall (λ i, ECOLDataset.label_at (ECOLDataset.samples (Loader.dataset dl)) i = Some 0
                 ∨ ECOLDataset.label_at (ECOLDataset.samples (Loader.dataset dl)) i = Some 1)
      (Loader.indices (Loader.sampler dl))).
  { constructor; [by left|]. constructor; [by right|]. constructor. }
  split; [exact H1|]. split; [exact H2|].
  rewrite (@check_balancing_binary Exact.floats Toy.platform dl H1 H2).
  vm_compute. reflexivity.
Defined.

Lemma check_balancing_after_balancing_witness :
  let g' := (@ECOLDataset.get_balanced_indices Toy.platform Toy.dataset Toy.zeros).2 in
  @ECOLDataset.get_balanced_indices Toy.platform Toy.dataset Toy.zeros
  = (Ok [2; 1], g')
  ∧ [2; 1] ≠ []
  ∧ @Loader.check_balancing Exact.floats Toy.platform
      (@Loader.Build_DataLoader Toy.platform Toy.dataset false 1
         (Loader.Build_SubsetRandomSampler [2; 1]))
    = Ok (Finite 50).
Proof.
  intros g'.
  assert (H1 : @ECOLDataset.get_balanced_indices Toy.platform Toy.dataset Toy.zeros
               = (Ok [2; 1], g')) by (vm_compute; reflexivity).
  assert (H2 : [2; 1] ≠ []) by discriminate.
  split; [exact H1|]. split; [exact H2|].
  rewrite (@check_balancing_after_balancing Exact.floats Toy.platform
             Toy.dataset Toy.zeros [2; 1] g' false 1 H1 H2).
  vm_compute. reflexivity.
Defined.

Lemma sampler_indices_within_dataset_witness :
  ∃ train val g',
    @Loader.load_dataset_ECOL_labeled Exact.floats Toy.platform
      "/data" 224 1 0 true true None None (Finite (1 # 2)) Toy.zeros
    = (Ok (train, val), g')
    ∧ @Loader.check_balancing Exact.floats Toy.platform train ≠ Raise IndexError.
Proof.
  destruct (@Loader.load_dataset_ECOL_labeled Exact.floats Toy.platform
              "/data" 224 1 0 true true None None (Finite (1 # 2)) Toy.zeros)
    as [[[train val]|e] g'] eqn:E; [|by vm_compute in E].
  exists train, val, g'. split; [reflexivity|].
  destruct (sampler_indices_within_dataset _ _ _ _ _ _ _ _ _ _ _ _ _ E)
    as (_ & _ & Hc & _).
  exact Hc.
Defined.


Lemma unshuffled_split_is_by_class_witness :
  ∃ train val g',
    @Loader.load_dataset_ECOL_labeled Exact.floats Toy.platform
      "/data" 224 1 0 false false None None (Finite (1 # 3)) Toy.zeros
    = (Ok (train, val), g')
    ∧ @listdir Toy.platform (@abspath Toy.platform "/data") = Some ["pos"; "neg"]
    ∧ NoDup ["pos"; "neg"]
    ∧ ∀ i j (a b : ECOLDataset.sample),
        i ∈ Loader.indices (Loader.sampler val) →
        j ∈ Loader.indices (Loader.sampler train) →
        ECOLDataset.samples (Loader.dataset train) !! i = Some a →
        ECOLDataset.samples (Loader.dataset train) !! j = Some b →
        i < j ∧ a.2 ≤ b.2.
Proof.
  destruct (@Loader.load_dataset_ECOL_labeled Exact.floats Toy.platform
              "/data" 224 1 0 false false None None (Finite (1 # 3)) Toy.zeros)
    as [[[train val]|e] g'] eqn:E; [|by vm_compute in E].
  assert (H2 : @listdir Toy.platform (@abspath Toy.platform "/data")
               = Some ["pos"; "neg"]) by reflexivity.
  assert (H3 : NoDup ["pos"; "neg"]) by exact DatasetMore.toy_listing_NoDup.
  exists train, val, g'. split; [reflexivity|]. split; [exact H2|]. split; [exact H3|].
  exact (unshuffled_split_is_by_class _ _ _ _ _ _ _ _ _ _ _ _ E H2 H3).
Defined.

Lemma unshuffled_balanced_split_is_one_sided_witness :
  ∃ train val g',
    @Loader.load_dataset_ECOL_labeled Exact.floats Toy.platform
      "/data" 224 1 0 false true None None (Finite (1 # 2)) Toy.zeros
    = (Ok (train, val), g')
    ∧ ((∀ i, i ∈ Loader.indices (Loader.sampler val) →
          ECOLDataset.label_at (ECOLDataset.samples (Loader.dataset val)) i = Some 1)
       ∨ (∀ j, j ∈ Loader.indices (Loader.sampler train) →
            ECOLDataset.label_at (ECOLDataset.samples (Loader.dataset train)) j = Some 0)).
Proof.
  destruct (@Loader.load_dataset_ECOL_labeled Exact.floats Toy.platform
              "/data" 224 1 0 false true None None (Finite (1 # 2)) Toy.zeros)
    as [[[train val]|e] g'] eqn:E; [|by vm_compute in E].
  exists train, val, g'. split; [reflexivity|].
  exact (unshuffled_balanced_split_is_one_sided _ _ _ _ _ _ _ _ _ _ _ E).
Defined.

Lemma balanced_shuffled_split_covers_selection_witness :
  ∃ train val g',
    @Loader.load_dataset_ECOL_labeled Exact.floats Toy.platform
      "/data" 224 1 0 true true None None (Finite (1 # 2)) Toy.zeros
    = (Ok (train, val), g')
    ∧ (∀ n, @None Z = Some n →
            (Z.of_nat (2 * length (ECOLDataset.positive_indices (Loader.dataset train)))
             ≤ n)%Z)
    ∧ length (Loader.indices (Loader.sampler val)
              ++ Loader.indices (Loader.sampler train))
      = 2 * length (ECOLDataset.positive_indices (Loader.dataset train)).
Proof.
  destruct (@Loader.load_dataset_ECOL_labeled Exact.floats Toy.platform
              "/data" 224 1 0 true true None None (Finite (1 # 2)) Toy.zeros)
    as [[[train val]|e] g'] eqn:E; [|by vm_compute in E].
  assert (H2 : ∀ n, @None Z = Some n →
            (Z.of_nat (2 * length (ECOLDataset.positive_indices (Loader.dataset train)))
             ≤ n)%Z) by (intros n [=]).
  exists train, val, g'. split; [reflexivity|]. split; [exact H2|].
  destruct (balanced_shuffled_split_covers_selection _ _ _ _ _ _ _ _ _ _ _ E H2)
    as (chosen & Hp & _ & Hl & _).
  rewrite Hp, length_app, Hl. lia.
Defined.

Lemma skewed_init :
  let d := @ECOLDataset.mk Toy.skewed "/data" ["neg"; "pos"]
             (<["pos" := 1]> (<["neg" := 0]> ∅)) [("/data/pos/c.png", 1)] 1
             (λ img : string, img) in
  @ECOLDataset.init Toy.skewed Random.bitgen "/data"
    (Some (default (@Loader.default_transform Toy.skewed 224)
             (Some (λ img : string, img)))) Toy.zeros
  = (Ok d, Toy.zeros).
Proof. vm_compute. reflexivity. Qed.

Lemma unbalanceable_dataset_raises_witness :
  let d := @ECOLDataset.mk Toy.skewed "/data" ["neg"; "pos"]
             (<["pos" := 1]> (<["neg" := 0]> ∅)) [("/data/pos/c.png", 1)] 1
             (λ img : string, img) in
  @ECOLDataset.init Toy.skewed Random.bitgen "/data"
    (Some (default (@Loader.default_transform Toy.skewed 224)
             (Some (λ img : string, img)))) Toy.zeros
  = (Ok d, Toy.zeros)
  ∧ length (ECOLDataset.negative_indices d) < length (ECOLDataset.positive_indices d)
  ∧ @Loader.load_dataset_ECOL_labeled Exact.floats Toy.skewed
      "/data" 224 1 0 true true (Some (λ img : string, img)) None (Finite (1 # 2))
      Toy.zeros
    = (Raise ValueError, Toy.zeros).
Proof.
  intros d.
  assert (H1 := skewed_init). fold d in H1.
  assert (H2 : length (ECOLDataset.negative_indices d)
               < length (ECOLDataset.positive_indices d)) by (vm_compute; lia).
  split; [exact H1|]. split; [exact H2|].
  exact (@unbalanceable_dataset_raises Exact.floats Toy.skewed "/data" 224 1 0 true
           (Some (λ img : string, img)) None (Finite (1 # 2)) Toy.zeros d H1 H2).
Defined.

End LoaderMore.

(** ** UnNormalize: the round trip back, and shapes *)

Module UnNormalizeMore.
Import UnNormalize.

Lemma channel_roundtrip_back (m s : Qc) (c : list (list Qc)) :
  s ≠ 0%Qc → div_ s (sub_ m (add_ m (mul_ s c))) = c.
Proof.
  intros Hs. unfold add_, mul_, div_, sub_.
  rewrite <- !list_fmap_compose.
  rewrite <- (list_fmap_id c) at 2. apply list_fmap_ext. intros _ row _.
  unfold compose. rewrite <- !list_fmap_compose.
  rewrite <- (list_fmap_id row) at 2. apply list_fmap_ext. intros _ x _.
  simpl. field. exact Hs.
Qed.

(** X24: the other half of the round trip: over exact arithmetic,
    normalising what [UnNormalize(mean, std)] returns, with the same
    means and non-zero divisors, gives back the tensor the call was
    given. *)
Theorem normalize_inverts_unnormalize (self : t) tensor :
  Forall (λ s, s ≠ 0%Qc) (std_used tensor (mean self) (std self)) →
  normalize (__call__ self tensor) (mean self) (std self) = tensor.
Proof.
  unfold __call__. generalize (mean self) (std self). clear self.
  induction tensor as [|c tensor IH]; intros mean std Hstd; [done|].
  destruct mean as [|m mean]; [done|]. destruct std as [|s std]; [done|].
  unfold std_used in Hstd. simpl in Hstd.
  apply Forall_cons in Hstd as [Hs Hstd]. simpl.
  rewrite channel_roundtrip_back by done. f_equal. by apply IH.
Qed.

(** X25: [UnNormalize] changes values only: the tensor it returns has
    as many channels as the one it was given, and every channel keeps
    its height and the width of each of its rows, whatever the lengths
    of [mean] and [std]. *)
Theorem unnormalize_keeps_shape (self : t) tensor :
  length (__call__ self tensor) = length tensor
  ∧ shape (__call__ self tensor) = shape tensor.
Proof.
  unfold __call__. generalize (mean self) (std self). clear self.
  induction tensor as [|c tensor IH]; intros mean std; [done|].
  destruct mean as [|m mean]; [done|]. destruct std as [|s std]; [done|].
  destruct (IH mean std) as [IHl IHs]. simpl. split; [by rewrite IHl|].
  unfold shape in *. simpl. rewrite IHs. f_equal.
  unfold add_, mul_. rewrite <- !list_fmap_compose.
  apply list_fmap_ext. intros _ row _. simpl. by rewrite !length_fmap.
Qed.

Lemma normalize_inverts_unnormalize_witness :
  let self := mk [Q2Qc (1 # 2)] [Q2Qc 2] in
  let tensor := [[[Q2Qc 1; Q2Qc 3]]] in
  Forall (λ s, s ≠ 0%Qc) (std_used tensor (mean self) (std self))
  ∧ normalize (__call__ self tensor) (mean self) (std self) = tensor.
Proof.
  intros self tensor.
  assert (H1 : Forall (λ s, s ≠ 0%Qc) (std_used tensor (mean self) (std self))).
  { repeat constructor. intros E. apply (f_equal this) in E. discriminate E. }
  split; [exact H1|].
  exact (normalize_inverts_unnormalize self tensor H1).
Defined.

End UnNormalizeMore.
